(** * Weather API handler: fetch-and-persist pipeline

    Shallow embedding of [src/api_handler/app.py]: the persistence layer
    ([DatabaseManager]), the rate limiter ([rate_limited_request]), the
    fetcher ([get_weather_for_city]) and the fan-out orchestrator
    ([process_weather_request]), followed by the properties of the
    specification that concern them.

    Conventions of the embedding.
    - Python values that come from the provider are JSON values ([json]);
      a Python [dict] is a [gmap string json].
    - Code that can raise returns a [result]; code that touches the store,
      the clock or the module-level globals passes the state explicitly.
    - The relational store is modelled at the level of its tables, of the
      constraints declared in [_init_database] (NOT NULL, UNIQUE, PRIMARY
      KEY through the sequences, FOREIGN KEY) and of its column types: a
      value is rounded to the scale of its DECIMAL column, and refused when
      it exceeds the precision of the column, the range of INTEGER or
      BIGINT, or the length of VARCHAR.  What the server makes of a
      parameter whose Python type is not the one of its column is left to
      the casts of the store ([Casts]), of which nothing is assumed.
    - Time is a count of ticks (nanoseconds) of a clock that never runs
      backwards; [logger] calls have no effect on any value and are left
      out. *)

From Stdlib Require Import ZArith String List Lia.
From stdpp Require Import base list strings gmap pretty.

Set Warnings "-register-all".
Open Scope Z_scope.

(** ** Python values *)

Module Py.

(** [decimal.Decimal], as psycopg2 returns it for a DECIMAL column: a finite
    value [coefficient * 10 ^ exponent], or NaN. *)
Inductive Decimal :=
| DFin (coefficient exponent : Z)
| DNaN.

(** [bool(x)] for a [Decimal]: false exactly for a zero coefficient. *)
Definition decimal_truthy (x : Decimal) : bool :=
  match x with
  | DFin c _ => negb (c =? 0)
  | DNaN => true
  end.

(** [float(x)]: the binary64 number nearest to [x], represented by the
    decimal it was converted from. *)
Record pyfloat := float { float_arg : Decimal }.

(** A decoded JSON document.  [JFloat d] is the float that [repr] prints as
    the decimal [d], which is how psycopg2 sends it to the store. *)
Inductive json :=
| JNull
| JBool (b : bool)
| JInt (z : Z)
| JFloat (d : Decimal)
| JStr (s : string)
| JArr (l : list json)
| JObj (m : gmap string json).

(** Exceptions: the class name and [str(e)]. *)
Inductive exn := Exception (cls msg : string).

Definition exn_str (e : exn) : string :=
  match e with Exception _ msg => msg end.

Inductive result (A : Type) :=
| Return (a : A)
| Raise (e : exn).

Arguments Return {A} a.
Arguments Raise {A} e.

Definition bind {A B} (r : result A) (k : A -> result B) : result B :=
  match r with
  | Return a => k a
  | Raise e => Raise e
  end.

Definition type_name (v : json) : string :=
  match v with
  | JNull => "NoneType"
  | JBool _ => "bool"
  | JInt _ => "int"
  | JFloat _ => "float"
  | JStr _ => "str"
  | JArr _ => "list"
  | JObj _ => "dict"
  end.

Definition is_substring (needle hay : string) : bool :=
  match String.index 0 needle hay with
  | Some _ => true
  | None => false
  end.

Definition str_eq_json (k : string) (v : json) : bool :=
  match v with
  | JStr s => String.eqb k s
  | _ => false
  end.

(** [k in v] for a string [k]: key membership for a dict, element
    membership for a list, substring test for a string, TypeError for
    the other values. *)
Definition py_in (k : string) (v : json) : result bool :=
  match v with
  | JObj m => Return (match m !! k with Some _ => true | None => false end)
  | JArr l => Return (existsb (str_eq_json k) l)
  | JStr s => Return (is_substring k s)
  | _ => Raise (Exception "TypeError"
                  ("argument of type '" +:+ type_name v +:+ "' is not iterable"))
  end.

(** [v[k]] for a string [k]. *)
Definition py_getitem (v : json) (k : string) : result json :=
  match v with
  | JObj m =>
      match m !! k with
      | Some x => Return x
      | None => Raise (Exception "KeyError" ("'" +:+ k +:+ "'"))
      end
  | JArr _ => Raise (Exception "TypeError" "list indices must be integers or slices, not str")
  | JStr _ => Raise (Exception "TypeError" "string indices must be integers")
  | _ => Raise (Exception "TypeError"
                  ("'" +:+ type_name v +:+ "' object is not subscriptable"))
  end.

(** [v.get(k)]: [None] stands for Python's [None] result of a missing key. *)
Definition py_get (v : json) (k : string) : result (option json) :=
  match v with
  | JObj m => Return (m !! k)
  | _ => Raise (Exception "AttributeError"
                  ("'" +:+ type_name v +:+ "' object has no attribute 'get'"))
  end.

(** [v.get(k, {})]. *)
Definition py_get_dict (v : json) (k : string) : result json :=
  bind (py_get v k) (fun o => Return (default (JObj ∅) o)).

End Py.

Export Py.

#[global] Instance result_ret : MRet result := @Return.
#[global] Instance result_bind : MBind result := fun A B k r => bind r k.

(** ** The relational store

    The two tables created by [_init_database], with the constraints the
    schema declares. *)

Module Sql.

(** Columns of [locations] that the application writes. *)
Record LocationValues := {
  l_name : option string;            (* VARCHAR(255) NOT NULL *)
  l_region : option string;          (* VARCHAR(255) *)
  l_country : option string;         (* VARCHAR(255) NOT NULL *)
  l_lat : option Decimal;            (* DECIMAL(10, 8) *)
  l_lon : option Decimal;            (* DECIMAL(11, 8) *)
  l_tz_id : option string;           (* VARCHAR(255) *)
  l_localtime_epoch : option Z;      (* BIGINT *)
  l_localtime_string : option string (* VARCHAR(50) *)
}.

Record LocationRow := {
  l_id : Z;                          (* SERIAL PRIMARY KEY *)
  l_values : LocationValues;
  l_created_at : Z;                  (* TIMESTAMP DEFAULT CURRENT_TIMESTAMP *)
  l_updated_at : Z
}.

(** Columns of [weather] that the application writes. *)
Record WeatherValues := {
  w_location_id : option Z;          (* INTEGER REFERENCES locations(id) *)
  w_last_updated_epoch : option Z;   (* BIGINT NOT NULL *)
  w_last_updated : option string;    (* VARCHAR(50) NOT NULL *)
  w_temp_c : option Decimal;
  w_temp_f : option Decimal;
  w_is_day : option Z;
  w_condition_text : option string;
  w_condition_icon : option string;
  w_condition_code : option Z;
  w_wind_mph : option Decimal;
  w_wind_kph : option Decimal;
  w_wind_degree : option Z;
  w_wind_dir : option string;
  w_pressure_mb : option Decimal;
  w_pressure_in : option Decimal;
  w_precip_mm : option Decimal;
  w_precip_in : option Decimal;
  w_humidity : option Z;
  w_cloud : option Z;
  w_feelslike_c : option Decimal;
  w_feelslike_f : option Decimal;
  w_vis_km : option Decimal;
  w_vis_miles : option Decimal;
  w_uv : option Decimal;
  w_gust_mph : option Decimal;
  w_gust_kph : option Decimal;
  w_raw_data : json                  (* JSONB *)
}.

Record WeatherRow := {
  w_id : Z;                          (* SERIAL PRIMARY KEY *)
  w_values : WeatherValues;
  w_created_at : Z                   (* TIMESTAMP DEFAULT CURRENT_TIMESTAMP *)
}.

(** What the server makes of a query parameter whose Python type is not the
    one of its column (a number for a VARCHAR column, a string or a float
    for an INTEGER column, a list, a dict, ...): its casts and input
    functions refuse the value or convert it to the base type of the
    column.  [compare_text] is the string that such a parameter is compared
    as in [WHERE name = %s], and stored as by the INSERT that follows;
    [jsonb_in] tells whether [json.dumps] of a document is accepted by a
    JSONB column (NaN, for one, is not). *)
Record Casts := {
  cast_text : json -> result string;
  cast_integer : json -> result Z;
  cast_numeric : json -> result Decimal;
  compare_text : json -> result string;
  jsonb_in : json -> bool
}.

(** The store: both tables in heap order, the two SERIAL sequences (next
    value to hand out), the store's clock, which advances with every
    committed statement so that no two rows share a timestamp, and the
    casts of the server. *)
Record Database := {
  locations : list LocationRow;
  weather : list WeatherRow;
  locations_id_seq : Z;
  weather_id_seq : Z;
  current_timestamp : Z;
  casts : Casts
}.

Definition DataError : exn := Exception "DataError" "invalid input value for column type".

(** A server that refuses every parameter of another type than its
    column's, and accepts every document. *)
Definition strict_casts : Casts :=
  {| cast_text := fun _ => Raise DataError;
     cast_integer := fun _ => Raise DataError;
     cast_numeric := fun _ => Raise DataError;
     compare_text := fun _ => Raise DataError;
     jsonb_in := fun _ => true |}.

Definition empty_database : Database :=
  {| locations := []; weather := []; locations_id_seq := 1;
     weather_id_seq := 1; current_timestamp := 0; casts := strict_casts |}.

(** *** Column types *)

Definition NumericValueOutOfRange : exn :=
  Exception "NumericValueOutOfRange" "value out of range for the column type".

Definition StringDataRightTruncation : exn :=
  Exception "StringDataRightTruncation" "value too long for type character varying".

Definition InvalidTextRepresentation : exn :=
  Exception "InvalidTextRepresentation" "invalid input syntax for type json".

(** A SERIAL column draws its ids from a sequence of INTEGERs that starts
    at 1; [nextval] fails once the sequence is exhausted. *)
Definition SequenceExhausted : exn :=
  Exception "SequenceGeneratorLimitExceeded" "nextval: reached maximum value of sequence".

Definition nextval_ok (next : Z) : bool := (1 <=? next) && (next <=? 2147483647).

(** INTEGER ([bits = 32]) and BIGINT ([bits = 64]). *)
Definition to_integer (bits : Z) (z : Z) : result Z :=
  if (- 2 ^ (bits - 1) <=? z) && (z <? 2 ^ (bits - 1))
  then Return z else Raise NumericValueOutOfRange.

(** [c / 10 ^ k] rounded to the nearest integer, ties away from zero. *)
Definition round_half_away (c k : Z) : Z :=
  Z.sgn c * ((Z.abs c + 10 ^ k / 2) / 10 ^ k).

(** DECIMAL(p, s): the value is rounded to [s] digits after the point and
    refused when the rounded value needs more than [p] digits; what is
    stored, and read back, has the exponent [- s].  NaN is stored as it
    is. *)
Definition to_decimal (p s : Z) (d : Decimal) : result Decimal :=
  match d with
  | DFin c e =>
      let c' :=
        if 0 <=? e + s then c * 10 ^ (e + s)
        else round_half_away c (- (e + s)) in
      if Z.abs c' <? 10 ^ p then Return (DFin c' (- s))
      else Raise NumericValueOutOfRange
  | DNaN => Return DNaN
  end.

(** The number of characters of a UTF-8 string: its bytes without the
    continuation bytes [10xxxxxx]. *)
Definition is_continuation (a : Ascii.ascii) : bool :=
  ((128 <=? Ascii.N_of_ascii a) && (Ascii.N_of_ascii a <? 192))%N.

Fixpoint char_length (s : string) : nat :=
  match s with
  | EmptyString => 0%nat
  | String a r => if is_continuation a then char_length r else S (char_length r)
  end.

Fixpoint all_spaces (s : string) : bool :=
  match s with
  | EmptyString => true
  | String a r => (Ascii.N_of_ascii a =? 32)%N && all_spaces r
  end.

(** VARCHAR(n): a longer string is refused, unless the characters in excess
    are all spaces, in which case it is truncated to [n] characters. *)
Definition to_varchar (n : nat) (s : string) : result string :=
  if (char_length s <=? n)%nat then Return s
  else
    let excess := (char_length s - n)%nat in
    let kept := (String.length s - excess)%nat in
    if all_spaces (String.substring kept excess s)
    then Return (String.substring 0 kept s)
    else Raise StringDataRightTruncation.

(** A nullable column: NULL is stored as NULL. *)
Definition column {A} (to_type : A -> result A) (v : option A)
    : result (option A) :=
  match v with
  | Some x => x' ← to_type x; mret (Some x')
  | None => Return None
  end.

(** The values of a row of [locations] as the column types of the schema
    store them. *)
Definition location_columns (v : LocationValues) : result LocationValues :=
  name ← column (to_varchar 255) (l_name v);
  region ← column (to_varchar 255) (l_region v);
  country ← column (to_varchar 255) (l_country v);
  lat ← column (to_decimal 10 8) (l_lat v);
  lon ← column (to_decimal 11 8) (l_lon v);
  tz_id ← column (to_varchar 255) (l_tz_id v);
  localtime_epoch ← column (to_integer 64) (l_localtime_epoch v);
  localtime_string ← column (to_varchar 50) (l_localtime_string v);
  mret {| l_name := name; l_region := region; l_country := country;
          l_lat := lat; l_lon := lon; l_tz_id := tz_id;
          l_localtime_epoch := localtime_epoch;
          l_localtime_string := localtime_string |}.

(** The same for the columns that the UPDATE of [locations] sets; the
    other three are not part of that statement. *)
Definition mutable_columns (v : LocationValues) : result LocationValues :=
  lat ← column (to_decimal 10 8) (l_lat v);
  lon ← column (to_decimal 11 8) (l_lon v);
  tz_id ← column (to_varchar 255) (l_tz_id v);
  localtime_epoch ← column (to_integer 64) (l_localtime_epoch v);
  localtime_string ← column (to_varchar 50) (l_localtime_string v);
  mret {| l_name := l_name v; l_region := l_region v;
          l_country := l_country v;
          l_lat := lat; l_lon := lon; l_tz_id := tz_id;
          l_localtime_epoch := localtime_epoch;
          l_localtime_string := localtime_string |}.

(** The values of a row of [weather] as the column types store them. *)
Definition weather_columns (v : WeatherValues) : result WeatherValues :=
  location_id ← column (to_integer 32) (w_location_id v);
  last_updated_epoch ← column (to_integer 64) (w_last_updated_epoch v);
  last_updated ← column (to_varchar 50) (w_last_updated v);
  temp_c ← column (to_decimal 5 2) (w_temp_c v);
  temp_f ← column (to_decimal 5 2) (w_temp_f v);
  is_day ← column (to_integer 32) (w_is_day v);
  condition_text ← column (to_varchar 255) (w_condition_text v);
  condition_icon ← column (to_varchar 255) (w_condition_icon v);
  condition_code ← column (to_integer 32) (w_condition_code v);
  wind_mph ← column (to_decimal 5 2) (w_wind_mph v);
  wind_kph ← column (to_decimal 5 2) (w_wind_kph v);
  wind_degree ← column (to_integer 32) (w_wind_degree v);
  wind_dir ← column (to_varchar 10) (w_wind_dir v);
  pressure_mb ← column (to_decimal 7 2) (w_pressure_mb v);
  pressure_in ← column (to_decimal 5 2) (w_pressure_in v);
  precip_mm ← column (to_decimal 5 2) (w_precip_mm v);
  precip_in ← column (to_decimal 5 2) (w_precip_in v);
  humidity ← column (to_integer 32) (w_humidity v);
  cloud ← column (to_integer 32) (w_cloud v);
  feelslike_c ← column (to_decimal 5 2) (w_feelslike_c v);
  feelslike_f ← column (to_decimal 5 2) (w_feelslike_f v);
  vis_km ← column (to_decimal 5 2) (w_vis_km v);
  vis_miles ← column (to_decimal 5 2) (w_vis_miles v);
  uv ← column (to_decimal 3 1) (w_uv v);
  gust_mph ← column (to_decimal 5 2) (w_gust_mph v);
  gust_kph ← column (to_decimal 5 2) (w_gust_kph v);
  mret {| w_location_id := location_id;
          w_last_updated_epoch := last_updated_epoch;
          w_last_updated := last_updated;
          w_temp_c := temp_c; w_temp_f := temp_f; w_is_day := is_day;
          w_condition_text := condition_text;
          w_condition_icon := condition_icon;
          w_condition_code := condition_code;
          w_wind_mph := wind_mph; w_wind_kph := wind_kph;
          w_wind_degree := wind_degree; w_wind_dir := wind_dir;
          w_pressure_mb := pressure_mb; w_pressure_in := pressure_in;
          w_precip_mm := precip_mm; w_precip_in := precip_in;
          w_humidity := humidity; w_cloud := cloud;
          w_feelslike_c := feelslike_c; w_feelslike_f := feelslike_f;
          w_vis_km := vis_km; w_vis_miles := vis_miles; w_uv := uv;
          w_gust_mph := gust_mph; w_gust_kph := gust_kph;
          w_raw_data := w_raw_data v |}.

(** SQL [a = b]: true only when both sides are non-null and equal. *)
Definition sql_eq_text (a b : option string) : bool :=
  match a, b with
  | Some x, Some y => String.eqb x y
  | _, _ => false
  end.

Definition sql_eq_int (a b : option Z) : bool :=
  match a, b with
  | Some x, Some y => x =? y
  | _, _ => false
  end.

(** [WHERE name = %s AND country = %s AND region = %s]. *)
Definition location_matches (name country region : option string)
    (r : LocationRow) : bool :=
  sql_eq_text (l_name (l_values r)) name
  && sql_eq_text (l_country (l_values r)) country
  && sql_eq_text (l_region (l_values r)) region.

(** [SELECT id FROM locations WHERE ...] followed by [fetchone()]. *)
Definition select_location_id (db : Database)
    (name country region : option string) : option Z :=
  l_id <$> List.find (location_matches name country region) (locations db).

(** [UPDATE locations SET lat, lon, tz_id, localtime_epoch,
    localtime_string, updated_at = CURRENT_TIMESTAMP WHERE id = %s]. *)
Definition set_mutable (v : LocationValues) (now : Z) (r : LocationRow)
    : LocationRow :=
  {| l_id := l_id r;
     l_values :=
       {| l_name := l_name (l_values r);
          l_region := l_region (l_values r);
          l_country := l_country (l_values r);
          l_lat := l_lat v;
          l_lon := l_lon v;
          l_tz_id := l_tz_id v;
          l_localtime_epoch := l_localtime_epoch v;
          l_localtime_string := l_localtime_string v |};
     l_created_at := l_created_at r;
     l_updated_at := now |}.

Definition apply_update (db : Database) (id : Z) (v : LocationValues)
    : Database :=
  {| locations :=
       map (fun r => if l_id r =? id
                     then set_mutable v (current_timestamp db) r else r)
           (locations db);
     weather := weather db;
     locations_id_seq := locations_id_seq db;
     weather_id_seq := weather_id_seq db;
     current_timestamp := current_timestamp db + 1;
     casts := casts db |}.

(** The statement with parameters [v]: they are converted to the column
    types first, and the statement fails without effect when one of them is
    refused. *)
Definition update_location (db : Database) (id : Z) (v : LocationValues)
    : Database * result unit :=
  match mutable_columns v with
  | Raise e => (db, Raise e)
  | Return c => (apply_update db id c, Return tt)
  end.

Definition IntegrityError (msg : string) : exn := Exception "IntegrityError" msg.

(** UNIQUE(name, country, region): a row with a null in one of the three
    columns never conflicts. *)
Definition unique_conflict (v : LocationValues) (r : LocationRow) : bool :=
  location_matches (l_name v) (l_country v) (l_region v) r.

(** [INSERT INTO locations (...) VALUES (...) RETURNING id] of values that
    have the column types.  The sequence value is consumed before the
    constraints are checked, and stays consumed when the statement is
    rolled back. *)
Definition apply_insert_location (db : Database) (v : LocationValues)
    : Database * result Z :=
  let id := locations_id_seq db in
  let failed :=
    {| locations := locations db; weather := weather db;
       locations_id_seq := id + 1; weather_id_seq := weather_id_seq db;
       current_timestamp := current_timestamp db; casts := casts db |} in
  match l_name v, l_country v with
  | Some _, Some _ =>
      if existsb (unique_conflict v) (locations db)
      then (failed, Raise (IntegrityError "duplicate key value violates unique constraint"))
      else
        ({| locations :=
              locations db ++
                [{| l_id := id; l_values := v;
                    l_created_at := current_timestamp db;
                    l_updated_at := current_timestamp db |}];
            weather := weather db;
            locations_id_seq := id + 1;
            weather_id_seq := weather_id_seq db;
            current_timestamp := current_timestamp db + 1;
            casts := casts db |},
         Return id)
  | _, _ => (failed, Raise (IntegrityError "null value violates not-null constraint"))
  end.

(** The statement with parameters [v]: the constant parameters are
    converted to the column types when the statement is planned, before a
    sequence value is drawn. *)
Definition insert_location (db : Database) (v : LocationValues)
    : Database * result Z :=
  match location_columns v with
  | Raise e => (db, Raise e)
  | Return c =>
      if nextval_ok (locations_id_seq db) then apply_insert_location db c
      else (db, Raise SequenceExhausted)
  end.

(** FOREIGN KEY (location_id) REFERENCES locations(id): a null reference
    is accepted. *)
Definition references_location (db : Database) (location_id : option Z) : bool :=
  match location_id with
  | Some id => existsb (fun r => l_id r =? id) (locations db)
  | None => true
  end.

(** [INSERT INTO weather (...) VALUES (...) RETURNING id] of values that
    have the column types. *)
Definition apply_insert_weather (db : Database) (v : WeatherValues)
    : Database * result Z :=
  let id := weather_id_seq db in
  let failed :=
    {| locations := locations db; weather := weather db;
       locations_id_seq := locations_id_seq db; weather_id_seq := id + 1;
       current_timestamp := current_timestamp db; casts := casts db |} in
  match w_last_updated_epoch v, w_last_updated v with
  | Some _, Some _ =>
      if references_location db (w_location_id v)
      then
        ({| locations := locations db;
            weather :=
              weather db ++
                [{| w_id := id; w_values := v;
                    w_created_at := current_timestamp db |}];
            locations_id_seq := locations_id_seq db;
            weather_id_seq := id + 1;
            current_timestamp := current_timestamp db + 1;
            casts := casts db |},
         Return id)
      else (failed, Raise (IntegrityError "violates foreign key constraint"))
  | _, _ => (failed, Raise (IntegrityError "null value violates not-null constraint"))
  end.

(** The statement with parameters [v]: they are converted to the column
    types, and the document to JSONB, before a sequence value is drawn. *)
Definition insert_weather (db : Database) (v : WeatherValues)
    : Database * result Z :=
  match weather_columns v with
  | Raise e => (db, Raise e)
  | Return c =>
      if jsonb_in (casts db) (w_raw_data v) then
        if nextval_ok (weather_id_seq db) then apply_insert_weather db c
        else (db, Raise SequenceExhausted)
      else (db, Raise InvalidTextRepresentation)
  end.

(** A row of [locations l JOIN weather w ON l.id = w.location_id]. *)
Abbreviation JoinedRow := (LocationRow * WeatherRow)%type.

(** [l.name = ANY(%s)]. *)
Definition name_in (city_names : list string) (l : LocationRow) : bool :=
  existsb (fun c => sql_eq_text (l_name (l_values l)) (Some c)) city_names.

Definition join_where (db : Database) (city_names : list string)
    : list JoinedRow :=
  w ← weather db;
  l ← filter (fun l => sql_eq_int (Some (l_id l)) (w_location_id (w_values w)))
        (locations db);
  if name_in city_names l then [(l, w)] else [].

(** [ORDER BY w.last_updated_epoch DESC, w.created_at DESC]: [a] may come
    before [b].  Descending order puts nulls first. *)
Definition order_before (a b : JoinedRow) : bool :=
  match w_last_updated_epoch (w_values (snd a)),
        w_last_updated_epoch (w_values (snd b)) with
  | None, None => w_created_at (snd b) <=? w_created_at (snd a)
  | None, Some _ => true
  | Some _, None => false
  | Some ea, Some eb =>
      (eb <? ea) || ((ea =? eb) && (w_created_at (snd b) <=? w_created_at (snd a)))
  end.

Fixpoint insert_ordered (x : JoinedRow) (l : list JoinedRow) : list JoinedRow :=
  match l with
  | [] => [x]
  | y :: l' => if order_before x y then x :: y :: l' else y :: insert_ordered x l'
  end.

Definition order_by (l : list JoinedRow) : list JoinedRow :=
  foldr insert_ordered [] l.

(** [SELECT ... FROM locations l JOIN weather w ... WHERE l.name = ANY(%s)
    ORDER BY ... LIMIT %s] followed by [fetchall()]. *)
Definition select_recent (db : Database) (city_names : list string)
    (row_limit : Z) : result (list JoinedRow) :=
  if row_limit <? 0
  then Raise (Exception "DataError" "LIMIT must not be negative")
  else Return (take (Z.to_nat row_limit) (order_by (join_where db city_names))).

End Sql.

Export Sql.

(** ** Persistence layer: [class DatabaseManager] *)

Module DatabaseManager.

(** How a query parameter reaches the statement: [None] (a missing key) and
    JSON null become SQL NULL; a string, an int or a float is sent as a
    literal of its value, a string with a NUL character being refused by
    psycopg2; a value of another Python type than the column's goes through
    the casts of the server [c]. *)
Definition NulError : exn :=
  Exception "ValueError" "A string literal cannot contain NUL (0x00) characters.".

Fixpoint has_nul (s : string) : bool :=
  match s with
  | EmptyString => false
  | String a r => (Ascii.N_of_ascii a =? 0)%N || has_nul r
  end.

Definition adapt_string (s : string) : result (option string) :=
  if has_nul s then Raise NulError else Return (Some s).

(** A parameter that is compared with a VARCHAR column and then stored in
    it. *)
Definition adapt_identity (c : Casts) (v : option json) : result (option string) :=
  match v with
  | None | Some JNull => Return None
  | Some (JStr s) => adapt_string s
  | Some x => s ← compare_text c x; mret (Some s)
  end.

Definition adapt_text (c : Casts) (v : option json) : result (option string) :=
  match v with
  | None | Some JNull => Return None
  | Some (JStr s) => adapt_string s
  | Some x => s ← cast_text c x; mret (Some s)
  end.

Definition adapt_integer (c : Casts) (v : option json) : result (option Z) :=
  match v with
  | None | Some JNull => Return None
  | Some (JInt z) => Return (Some z)
  | Some x => z ← cast_integer c x; mret (Some z)
  end.

Definition adapt_decimal (c : Casts) (v : option json) : result (option Decimal) :=
  match v with
  | None | Some JNull => Return None
  | Some (JInt z) => Return (Some (DFin z 0))
  | Some (JFloat (DFin coefficient exponent)) =>
      Return (Some (DFin coefficient exponent))
  | Some x => d ← cast_numeric c x; mret (Some d)
  end.

Definition get_identity (c : Casts) (d : json) (k : string) : result (option string) :=
  py_get d k ≫= adapt_identity c.

Definition get_text (c : Casts) (d : json) (k : string) : result (option string) :=
  py_get d k ≫= adapt_text c.

Definition get_integer (c : Casts) (d : json) (k : string) : result (option Z) :=
  py_get d k ≫= adapt_integer c.

Definition get_decimal (c : Casts) (d : json) (k : string) : result (option Decimal) :=
  py_get d k ≫= adapt_decimal c.

(** [psycopg2.connect] failed inside [get_connection]. *)
Definition OperationalError : exn :=
  Exception "OperationalError" "could not connect to server".

(** Parameters of the SELECT of [insert_or_get_location]. *)
Definition identity_params (c : Casts) (location_data : json)
    : result (option string * option string * option string) :=
  name ← get_identity c location_data "name";
  country ← get_identity c location_data "country";
  region ← get_identity c location_data "region";
  mret (name, country, region).

(** The remaining parameters of its UPDATE and INSERT. *)
Definition location_values (c : Casts) (name country region : option string)
    (location_data : json) : result LocationValues :=
  lat ← get_decimal c location_data "lat";
  lon ← get_decimal c location_data "lon";
  tz_id ← get_text c location_data "tz_id";
  localtime_epoch ← get_integer c location_data "localtime_epoch";
  localtime_string ← get_text c location_data "localtime_string";
  mret {| l_name := name; l_region := region; l_country := country;
          l_lat := lat; l_lon := lon; l_tz_id := tz_id;
          l_localtime_epoch := localtime_epoch;
          l_localtime_string := localtime_string |}.

(** [insert_or_get_location(self, location_data)].  [connected] tells
    whether [get_connection] obtains a connection; on an exception the
    transaction is rolled back and the exception re-raised. *)
Definition insert_or_get_location (connected : bool) (db : Database)
    (location_data : json) : Database * result Z :=
  if connected then
    match identity_params (casts db) location_data with
    | Raise e => (db, Raise e)
    | Return (name, country, region) =>
        match select_location_id db name country region with
        | Some existing =>
            (* Update the existing location with latest data *)
            match location_values (casts db) name country region location_data with
            | Raise e => (db, Raise e)
            | Return v =>
                match update_location db existing v with
                | (db', Raise e) => (db', Raise e)
                | (db', Return _) => (db', Return existing)
                end
            end
        | None =>
            (* Insert new location *)
            match location_values (casts db) name country region location_data with
            | Raise e => (db, Raise e)
            | Return v => insert_location db v
            end
        end
    end
  else (db, Raise OperationalError).

(** Parameters of the INSERT of [insert_weather_data]. *)
Definition weather_values (c : Casts) (location_id : Z) (weather_data : json)
    : result WeatherValues :=
  current ← py_get_dict weather_data "current";
  condition ← py_get_dict current "condition";
  last_updated_epoch ← get_integer c current "last_updated_epoch";
  last_updated ← get_text c current "last_updated";
  temp_c ← get_decimal c current "temp_c";
  temp_f ← get_decimal c current "temp_f";
  is_day ← get_integer c current "is_day";
  text ← get_text c condition "text";
  icon ← get_text c condition "icon";
  code ← get_integer c condition "code";
  wind_mph ← get_decimal c current "wind_mph";
  wind_kph ← get_decimal c current "wind_kph";
  wind_degree ← get_integer c current "wind_degree";
  wind_dir ← get_text c current "wind_dir";
  pressure_mb ← get_decimal c current "pressure_mb";
  pressure_in ← get_decimal c current "pressure_in";
  precip_mm ← get_decimal c current "precip_mm";
  precip_in ← get_decimal c current "precip_in";
  humidity ← get_integer c current "humidity";
  cloud ← get_integer c current "cloud";
  feelslike_c ← get_decimal c current "feelslike_c";
  feelslike_f ← get_decimal c current "feelslike_f";
  vis_km ← get_decimal c current "vis_km";
  vis_miles ← get_decimal c current "vis_miles";
  uv ← get_decimal c current "uv";
  gust_mph ← get_decimal c current "gust_mph";
  gust_kph ← get_decimal c current "gust_kph";
  mret {| w_location_id := Some location_id;
          w_last_updated_epoch := last_updated_epoch;
          w_last_updated := last_updated;
          w_temp_c := temp_c; w_temp_f := temp_f; w_is_day := is_day;
          w_condition_text := text; w_condition_icon := icon;
          w_condition_code := code;
          w_wind_mph := wind_mph; w_wind_kph := wind_kph;
          w_wind_degree := wind_degree; w_wind_dir := wind_dir;
          w_pressure_mb := pressure_mb; w_pressure_in := pressure_in;
          w_precip_mm := precip_mm; w_precip_in := precip_in;
          w_humidity := humidity; w_cloud := cloud;
          w_feelslike_c := feelslike_c; w_feelslike_f := feelslike_f;
          w_vis_km := vis_km; w_vis_miles := vis_miles; w_uv := uv;
          w_gust_mph := gust_mph; w_gust_kph := gust_kph;
          w_raw_data := weather_data |}.

(** [insert_weather_data(self, location_id, weather_data)]. *)
Definition insert_weather_data (connected : bool) (db : Database)
    (location_id : Z) (weather_data : json) : Database * result Z :=
  if connected then
    match weather_values (casts db) location_id weather_data with
    | Raise e => (db, Raise e)
    | Return v => insert_weather db v
    end
  else (db, Raise OperationalError).

(** The provider-shaped structure rebuilt by [get_recent_weather_data]. *)
Record location_block := {
  name : option string;
  region : option string;
  country : option string;
  lat : option pyfloat;
  lon : option pyfloat;
  tz_id : option string;
  localtime_epoch : option Z;
  localtime_string : option string
}.

Record condition_block := {
  text : option string;
  icon : option string;
  code : option Z
}.

Record current_block := {
  last_updated_epoch : option Z;
  last_updated : option string;
  temp_c : option pyfloat;
  temp_f : option pyfloat;
  is_day : option Z;
  condition : condition_block;
  wind_mph : option pyfloat;
  wind_kph : option pyfloat;
  wind_degree : option Z;
  wind_dir : option string;
  pressure_mb : option pyfloat;
  pressure_in : option pyfloat;
  precip_mm : option pyfloat;
  precip_in : option pyfloat;
  humidity : option Z;
  cloud : option Z;
  feelslike_c : option pyfloat;
  feelslike_f : option pyfloat;
  vis_km : option pyfloat;
  vis_miles : option pyfloat;
  uv : option pyfloat;
  gust_mph : option pyfloat;
  gust_kph : option pyfloat
}.

Record weather_item := {
  location : location_block;
  current : current_block
}.

(** [null_filler = lambda x: float(x) if x else None]. *)
Definition null_filler (x : option Decimal) : option pyfloat :=
  match x with
  | Some d => if decimal_truthy d then Some (float d) else None
  | None => None
  end.

(** The dict literal built from one row of the query. *)
Definition make_weather_item (row : JoinedRow) : weather_item :=
  let l := l_values (fst row) in
  let w := w_values (snd row) in
  {| location :=
       {| name := l_name l;
          region := l_region l;
          country := l_country l;
          lat := null_filler (l_lat l);
          lon := null_filler (l_lon l);
          tz_id := l_tz_id l;
          localtime_epoch := l_localtime_epoch l;
          localtime_string := l_localtime_string l |};
     current :=
       {| last_updated_epoch := w_last_updated_epoch w;
          last_updated := w_last_updated w;
          temp_c := null_filler (w_temp_c w);
          temp_f := null_filler (w_temp_f w);
          is_day := w_is_day w;
          condition :=
            {| text := w_condition_text w;
               icon := w_condition_icon w;
               code := w_condition_code w |};
          wind_mph := null_filler (w_wind_mph w);
          wind_kph := null_filler (w_wind_kph w);
          wind_degree := w_wind_degree w;
          wind_dir := w_wind_dir w;
          pressure_mb := null_filler (w_pressure_mb w);
          pressure_in := null_filler (w_pressure_in w);
          precip_mm := null_filler (w_precip_mm w);
          precip_in := null_filler (w_precip_in w);
          humidity := w_humidity w;
          cloud := w_cloud w;
          feelslike_c := null_filler (w_feelslike_c w);
          feelslike_f := null_filler (w_feelslike_f w);
          vis_km := null_filler (w_vis_km w);
          vis_miles := null_filler (w_vis_miles w);
          uv := null_filler (w_uv w);
          gust_mph := null_filler (w_gust_mph w);
          gust_kph := null_filler (w_gust_kph w) |} |}.

(** [city_data]: a Python dict keeps its keys in insertion order, so it is
    an association list here. *)
Abbreviation city_dict := (list (option string * weather_item)).

Definition dict_contains (d : city_dict) (k : option string) : bool :=
  existsb (fun kv => bool_decide (fst kv = k)) d.

(** [d[k] = v]: overwrite in place, or append a new key. *)
Fixpoint dict_setitem (d : city_dict) (k : option string) (v : weather_item)
    : city_dict :=
  match d with
  | [] => [(k, v)]
  | (k', v') :: d' =>
      if bool_decide (k' = k) then (k, v) :: d' else (k', v') :: dict_setitem d' k v
  end.

(** The [for] loop of [get_recent_weather_data].  Its body is the single
    statement [city_name = row['name']]: the loop only leaves the local
    variables [row] and [city_name] bound to the last row, and leaves them
    unbound when there is no row. *)
Definition loop_bindings (results : list JoinedRow)
    : option (JoinedRow * option string) :=
  fold_left (fun _ row => Some (row, l_name (l_values (fst row)))) results None.

Definition UnboundLocalError : exn :=
  Exception "UnboundLocalError"
    "cannot access local variable 'city_name' where it is not associated with a value".

(** [get_recent_weather_data(self, city_names, limit=10)].  The [if] that
    follows the loop is at the loop's own indentation, so it runs once,
    after the loop. *)
Definition get_recent_weather_data (connected : bool) (db : Database)
    (city_names : list string) (limit : Z) : result (list weather_item) :=
  if connected then
    results ← select_recent db city_names (limit * Z.of_nat (length city_names));
    let city_data : city_dict := [] in
    match loop_bindings results with
    | None => Raise UnboundLocalError
    | Some (row, city_name) =>
        let city_data :=
          if negb (dict_contains city_data city_name)
          then dict_setitem city_data city_name (make_weather_item row)
          else city_data in
        Return (snd <$> city_data)
    end
  else Raise OperationalError.

End DatabaseManager.

(** ** Module-level state and environment *)

(** What [requests.get] does for one call: it raises
    [requests.exceptions.Timeout], it raises another exception [e] with
    [str(e) = msg], or it returns a response with a status code and a body;
    [body] is what [response.json()] returns or raises. *)
Inductive HttpResult :=
| RequestTimeout
| RequestFailed (msg : string)
| Response (status_code : Z) (body : result json).

(** What the environment decides for one fetch task: how long the task
    waits before it reads the clock under [request_lock], by how much
    [time.sleep] overshoots, how long it takes to read the clock again, how
    long the HTTP round trip lasts and what it yields, whether the two
    connections to the store can be opened, and when the task completes
    relative to the other tasks of its batch. *)
Record TaskEnv := {
  wait_for_lock : N;
  oversleep : N;
  before_record : N;
  round_trip : N;
  http : HttpResult;
  connect_location : bool;
  connect_weather : bool;
  completion_rank : nat
}.

(** A call that reached the persistence layer. *)
Inductive DbCall :=
| CallInsertOrGetLocation (location_data : json)
| CallInsertWeatherData (location_id : Z) (weather_data : json).

(** An entry of [recent_requests]. *)
Record RequestRecord := {
  rr_request_id : string;
  rr_cities : list string;
  rr_timestamp : Z;
  rr_requested_at : Z    (* the same instant, kept as ISO text by the code *)
}.

(** The store, the clock read by [time.time()], the globals
    [last_request_time] and [recent_requests], and the trace of the calls
    made to the persistence layer. *)
Record World := {
  db : Database;
  clock : Z;
  last_request_time : Z;
  recent_requests : list RequestRecord;
  db_calls : list DbCall
}.

Definition initial_world : World :=
  {| db := empty_database; clock := 0; last_request_time := 0;
     recent_requests := []; db_calls := [] |}.

Definition with_store (w : World) (d : Database) (c : DbCall) : World :=
  {| db := d; clock := clock w; last_request_time := last_request_time w;
     recent_requests := recent_requests w; db_calls := db_calls w ++ [c] |}.

(** ** Rate limiter *)

(** [MIN_REQUEST_INTERVAL = 0.1], in ticks: 100ms between requests. *)
Definition MIN_REQUEST_INTERVAL : Z := 100000000.

(** The body of [with request_lock:] in [rate_limited_request]: the new
    clock and the new [last_request_time]. *)
Definition acquire (clock last_request_time : Z) (env : TaskEnv) : Z * Z :=
  let current_time := clock + Z.of_N (wait_for_lock env) in
  let time_since_last := current_time - last_request_time in
  let after_sleep :=
    if time_since_last <? MIN_REQUEST_INTERVAL
    then
      let sleep_time := MIN_REQUEST_INTERVAL - time_since_last in
      current_time + sleep_time + Z.of_N (oversleep env)
    else current_time in
  let recorded := after_sleep + Z.of_N (before_record env) in
  (recorded, recorded).

(** [rate_limited_request(url, params)]. *)
Definition rate_limited_request (w : World) (env : TaskEnv) : World * HttpResult :=
  let '(now, last) := acquire (clock w) (last_request_time w) env in
  ({| db := db w; clock := now + Z.of_N (round_trip env);
      last_request_time := last;
      recent_requests := recent_requests w; db_calls := db_calls w |},
   http env).

(** ** Weather fetcher *)

(** [response.raise_for_status()] raises HTTPError for the client and
    server error statuses. *)
Definition raises_for_status (status_code : Z) : bool :=
  ((400 <=? status_code) && (status_code <? 500))
  || ((500 <=? status_code) && (status_code <? 600)).

Definition error_dict (error message : string) : json :=
  JObj (<["error" := JStr error]> (<["message" := JStr message]> ∅)).

(** The [except requests.exceptions.HTTPError] handler. *)
Definition http_error_dict (city : string) (status_code : Z) : json :=
  if status_code =? 400 then
    error_dict "not_found" ("City '" +:+ city +:+ "' not found")
  else if status_code =? 401 then
    error_dict "auth" "Invalid API key"
  else if status_code =? 403 then
    error_dict "limit" "API request limit exceeded"
  else
    error_dict "http" ("HTTP " +:+ pretty status_code +:+ " error for " +:+ city).

(** The [except Exception] handler. *)
Definition unexpected_dict (msg : string) : json :=
  error_dict "unexpected" ("Unexpected error: " +:+ msg).

(** ['location' not in data or 'current' not in data]. *)
Definition invalid_structure (data : json) : result bool :=
  has_location ← py_in "location" data;
  if negb has_location then mret true
  else has_current ← py_in "current" data; mret (negb has_current).

(** The body of the inner [try] of [get_weather_for_city]: what the two
    calls do to the world, and the ids they return or the exception the
    [except Exception as db_error] handler receives. *)
Definition store_in_database (w : World) (env : TaskEnv) (data : json)
    : World * result (Z * Z) :=
  match py_getitem data "location" with
  | Raise e => (w, Raise e)
  | Return location_data =>
      let '(db1, r1) :=
        DatabaseManager.insert_or_get_location (connect_location env) (db w)
          location_data in
      let w1 := with_store w db1 (CallInsertOrGetLocation location_data) in
      match r1 with
      | Raise e => (w1, Raise e)
      | Return location_id =>
          let '(db2, r2) :=
            DatabaseManager.insert_weather_data (connect_weather env) db1
              location_id data in
          let w2 := with_store w1 db2 (CallInsertWeatherData location_id data) in
          match r2 with
          | Raise e => (w2, Raise e)
          | Return weather_id => (w2, Return (location_id, weather_id))
          end
      end
  end.

(** [get_weather_for_city(city)]. *)
Definition get_weather_for_city (w : World) (env : TaskEnv) (city : string)
    : World * (string * option json) :=
  let '(w, response) := rate_limited_request w env in
  match response with
  | RequestTimeout =>
      (w, (city, Some (error_dict "timeout" ("Request timeout for " +:+ city))))
  | RequestFailed msg => (w, (city, Some (unexpected_dict msg)))
  | Response status_code body =>
      if raises_for_status status_code then
        (w, (city, Some (http_error_dict city status_code)))
      else
        match body with
        | Raise e => (w, (city, Some (unexpected_dict (exn_str e))))
        | Return data =>
            (* Validate response structure *)
            match invalid_structure data with
            | Raise e => (w, (city, Some (unexpected_dict (exn_str e))))
            | Return true => (w, (city, None))
            | Return false =>
                (* Store in database; don't fail the request if database fails *)
                let '(w, _) := store_in_database w env data in
                (w, (city, Some data))
            end
        end
  end.

(** ** Fan-out orchestrator *)

(** An entry of the [errors] list, by the f-string that produces it. *)
Inductive ErrorEntry :=
| NoDataReceived (city_name : string)
    (* f"No data received for {city_name}" *)
| CityMessage (city_name : string) (message : json)
    (* f"{city_name}: {weather_data['message']}" *)
| ProcessingError (city : string).
    (* f"{city}: Unexpected processing error" *)

(** A completed future with the city it is filed under in
    [future_to_city]. *)
Record Future := {
  future_city : string;
  future_result : string * option json;
  future_rank : nat
}.

(** The worker pool: one task per city, started in submission order; task
    number [i] runs in the environment [env i].  The threads of the pool
    share the lock of the rate limiter and the store; their effects on the
    world are applied here one task after the other, in submission order,
    which is one of the schedules of the pool.  The order in which the
    tasks complete is fixed by [completion_rank]. *)
Fixpoint run_tasks (w : World) (env : nat -> TaskEnv) (i : nat)
    (cities : list string) : World * list Future :=
  match cities with
  | [] => (w, [])
  | city :: rest =>
      let '(w1, r) := get_weather_for_city w (env i) city in
      let '(w2, futures) := run_tasks w1 env (S i) rest in
      (w2, {| future_city := city; future_result := r;
              future_rank := completion_rank (env i) |} :: futures)
  end.

(** [as_completed(future_to_city)]: the futures in order of completion. *)
Fixpoint insert_completed (f : Future) (l : list Future) : list Future :=
  match l with
  | [] => [f]
  | g :: l' =>
      if (future_rank f <=? future_rank g)%nat
      then f :: g :: l' else g :: insert_completed f l'
  end.

Definition as_completed (futures : list Future) : list Future :=
  foldr insert_completed [] futures.

(** The locals [results], [errors] and [successful_cities]. *)
Record Collected := {
  results : list json;
  errors : list ErrorEntry;
  successful_cities : list string
}.

Definition add_error (acc : Collected) (e : ErrorEntry) : Collected :=
  {| results := results acc; errors := errors acc ++ [e];
     successful_cities := successful_cities acc |}.

(** The body of the [for future in as_completed(...)] loop. *)
Definition collect (acc : Collected) (future : Future) : Collected :=
  let city := future_city future in
  let '(city_name, weather_data) := future_result future in
  match weather_data with
  | None => add_error acc (NoDataReceived city_name)
  | Some weather_data =>
      match py_in "error" weather_data with
      | Raise _ => add_error acc (ProcessingError city)
      | Return true =>
          match py_getitem weather_data "message" with
          | Raise _ => add_error acc (ProcessingError city)
          | Return message => add_error acc (CityMessage city_name message)
          end
      | Return false =>
          {| results := results acc ++ [weather_data];
             errors := errors acc;
             successful_cities := successful_cities acc ++ [city_name] |}
      end
  end.

(** The dict returned by [process_weather_request]. *)
Record BatchResponse := {
  success : bool;
  request_id : string;
  requested_cities : list string;
  successful_count : nat;       (* "successful_cities": len(results) *)
  failed_cities : nat;          (* len(errors) *)
  error_list : list ErrorEntry; (* "errors" *)
  timestamp : Z
}.

(** [recent_requests.append(r)] on a [deque(maxlen=100)]. *)
Definition deque_append (q : list RequestRecord) (r : RequestRecord)
    : list RequestRecord :=
  let q' := q ++ [r] in drop (length q' - 100) q'.

(** [process_weather_request(cities)]; [uuid4] is the value of
    [str(uuid.uuid4())]. *)
Definition process_weather_request (w : World) (env : nat -> TaskEnv)
    (uuid4 : string) (cities : list string) : World * BatchResponse :=
  let '(w1, futures) := run_tasks w env 0 cities in
  let acc :=
    fold_left collect (as_completed futures)
      {| results := []; errors := []; successful_cities := [] |} in
  let w2 :=
    {| db := db w1; clock := clock w1;
       last_request_time := last_request_time w1;
       recent_requests :=
         deque_append (recent_requests w1)
           {| rr_request_id := uuid4; rr_cities := successful_cities acc;
              rr_timestamp := clock w1; rr_requested_at := clock w1 |};
       db_calls := db_calls w1 |} in
  (w2,
   {| success := (0 <? length (results acc))%nat;
      request_id := uuid4;
      requested_cities := cities;
      successful_count := length (results acc);
      failed_cities := length (errors acc);
      error_list := errors acc;
      timestamp := clock w1 |}).

(** ** The behaviour the specification describes for recent readings *)

Module Spec.

Import DatabaseManager.

(** Following the specification's words: keep only the first (most recent)
    reading encountered per distinct city name, each reconstructed into the
    provider-shaped structure. *)
Definition keep_first_per_city (results : list JoinedRow) : city_dict :=
  fold_left
    (fun city_data row =>
       let city_name := l_name (l_values (fst row)) in
       if negb (dict_contains city_data city_name)
       then dict_setitem city_data city_name (make_weather_item row)
       else city_data)
    results [].

Definition getRecentReadings (connected : bool) (db : Database)
    (city_names : list string) (limit : Z) : result (list weather_item) :=
  if connected then
    results ← select_recent db city_names (limit * Z.of_nat (length city_names));
    mret (snd <$> keep_first_per_city results)
  else Raise OperationalError.

End Spec.

(** ** Notions used to state the properties *)

(** [rate_limited_request] called once per environment, one call after the
    other: the final world and the value of [last_request_time] recorded by
    each call. *)
Fixpoint sequential_requests (w : World) (envs : list TaskEnv)
    : World * list Z :=
  match envs with
  | [] => (w, [])
  | env :: rest =>
      let w1 := fst (rate_limited_request w env) in
      let '(w2, starts) := sequential_requests w1 rest in
      (w2, last_request_time w1 :: starts)
  end.

(** The outcome of a fetch as the orchestrator classifies it: successful
    when it is not [None] and has no ["error"] member. *)
Definition is_successful (weather_data : option json) : bool :=
  match weather_data with
  | None => false
  | Some d =>
      match py_in "error" d with
      | Return false => true
      | _ => false
      end
  end.

(** The outcome of the fetch of [city] in the environment [env]. *)
Definition outcome (env : TaskEnv) (city : string) : option json :=
  snd (snd (get_weather_for_city initial_world env city)).

(** The tag of a failing outcome: the string under ["error"]. *)
Definition error_tag (weather_data : option json) : option string :=
  match weather_data with
  | Some (JObj m) =>
      match m !! "error" with
      | Some (JStr tag) => Some tag
      | _ => None
      end
  | _ => None
  end.

Definition error_message (weather_data : option json) : option string :=
  match weather_data with
  | Some (JObj m) =>
      match m !! "message" with
      | Some (JStr msg) => Some msg
      | _ => None
      end
  | _ => None
  end.

(** The failure taxonomy of the specification, and the tag string the
    code uses for each member. *)
Inductive FailureTag :=
| timeout
| not_found
| auth
| rate_limited
| http_error
| unexpected.

Definition tag_string (t : FailureTag) : string :=
  match t with
  | timeout => "timeout"
  | not_found => "not_found"
  | auth => "auth"
  | rate_limited => "limit"
  | http_error => "http"
  | unexpected => "unexpected"
  end.

Definition has_tag (weather_data : option json) (t : FailureTag) : Prop :=
  error_tag weather_data = Some (tag_string t).

(** A future as the worker pool produces it for task number [i]. *)
Definition future_of (env : nat -> TaskEnv) (i : nat) (city : string) : Future :=
  {| future_city := city; future_result := (city, outcome (env i) city);
     future_rank := completion_rank (env i) |}.

Definition future_ok (f : Future) : bool := is_successful (snd (future_result f)).

(** The identity of a location row, and the rows of the store that carry a
    given identity. *)
Definition identity (r : LocationRow)
    : option string * option string * option string :=
  (l_name (l_values r), l_country (l_values r), l_region (l_values r)).

Definition rows_with_identity (db : Database)
    (k : option string * option string * option string) : list LocationRow :=
  filter (fun r => identity r = k) (locations db).

(** What UNIQUE(name, country, region) guarantees of a stored table. *)
Definition unique_constraint (db : Database) : Prop :=
  forall i j ri rj,
    locations db !! i = Some ri -> locations db !! j = Some rj ->
    unique_conflict (l_values ri) rj = true -> i = j.

(** A DECIMAL column together with the member of the rebuilt structure it
    is surfaced in, and the same for an integer column. *)
Record DecimalField := {
  stored : JoinedRow -> option Decimal;
  surfaced : DatabaseManager.weather_item -> option pyfloat
}.

Record IntegerField := {
  stored_int : JoinedRow -> option Z;
  surfaced_int : DatabaseManager.weather_item -> option Z
}.

Module Fields.

Import DatabaseManager.

Definition l_column {A} (f : LocationValues -> A) (row : JoinedRow) : A :=
  f (l_values (fst row)).

Definition w_column {A} (f : WeatherValues -> A) (row : JoinedRow) : A :=
  f (w_values (snd row)).

Definition in_location {A} (f : location_block -> A) (item : weather_item) : A :=
  f (location item).

Definition in_current {A} (f : current_block -> A) (item : weather_item) : A :=
  f (current item).

(** The members built with [null_filler]. *)
Definition decimal_fields : list DecimalField :=
  [ {| stored := l_column l_lat; surfaced := in_location lat |};
    {| stored := l_column l_lon; surfaced := in_location lon |};
    {| stored := w_column w_temp_c; surfaced := in_current temp_c |};
    {| stored := w_column w_temp_f; surfaced := in_current temp_f |};
    {| stored := w_column w_wind_mph; surfaced := in_current wind_mph |};
    {| stored := w_column w_wind_kph; surfaced := in_current wind_kph |};
    {| stored := w_column w_pressure_mb; surfaced := in_current pressure_mb |};
    {| stored := w_column w_pressure_in; surfaced := in_current pressure_in |};
    {| stored := w_column w_precip_mm; surfaced := in_current precip_mm |};
    {| stored := w_column w_precip_in; surfaced := in_current precip_in |};
    {| stored := w_column w_feelslike_c; surfaced := in_current feelslike_c |};
    {| stored := w_column w_feelslike_f; surfaced := in_current feelslike_f |};
    {| stored := w_column w_vis_km; surfaced := in_current vis_km |};
    {| stored := w_column w_vis_miles; surfaced := in_current vis_miles |};
    {| stored := w_column w_uv; surfaced := in_current uv |};
    {| stored := w_column w_gust_mph; surfaced := in_current gust_mph |};
    {| stored := w_column w_gust_kph; surfaced := in_current gust_kph |} ].

(** The integer members, built from the row as it is. *)
Definition integer_fields : list IntegerField :=
  [ {| stored_int := l_column l_localtime_epoch;
       surfaced_int := in_location localtime_epoch |};
    {| stored_int := w_column w_last_updated_epoch;
       surfaced_int := in_current last_updated_epoch |};
    {| stored_int := w_column w_is_day; surfaced_int := in_current is_day |};
    {| stored_int := w_column w_condition_code;
       surfaced_int := in_current (fun c => code (condition c)) |};
    {| stored_int := w_column w_wind_degree; surfaced_int := in_current wind_degree |};
    {| stored_int := w_column w_humidity; surfaced_int := in_current humidity |};
    {| stored_int := w_column w_cloud; surfaced_int := in_current cloud |} ].

End Fields.

Export Fields.

(** A stored value that is exactly zero. *)
Definition is_zero (x : option Decimal) : Prop := exists e, x = Some (DFin 0 e).

(** What a list of rebuilt readings shows of each city: its name, the
    observation epoch and the temperature. *)
Definition summary (r : result (list DatabaseManager.weather_item))
    : result (list (option string * option Z * option pyfloat)) :=
  match r with
  | Return items =>
      Return (map (fun i => (DatabaseManager.name (DatabaseManager.location i),
                             DatabaseManager.last_updated_epoch (DatabaseManager.current i),
                             DatabaseManager.temp_c (DatabaseManager.current i)))
                items)
  | Raise e => Raise e
  end.

(** ** Concrete inputs *)

Module Examples.

(** A dict literal. *)
Definition dict (items : list (string * json)) : json := JObj (list_to_map items).

Definition london : json :=
  dict [("name", JStr "London"); ("region", JStr "City of London, Greater London");
        ("country", JStr "United Kingdom");
        ("lat", JFloat (DFin 5152 (-2))); ("lon", JFloat (DFin (-11) (-2)));
        ("tz_id", JStr "Europe/London"); ("localtime_epoch", JInt 1700000100)].

Definition paris : json :=
  dict [("name", JStr "Paris"); ("region", JStr "Ile-de-France");
        ("country", JStr "France");
        ("lat", JFloat (DFin 4887 (-2))); ("lon", JFloat (DFin 233 (-2)));
        ("tz_id", JStr "Europe/Paris"); ("localtime_epoch", JInt 1700000100)].

(** A location whose region is null. *)
Definition null_island : json :=
  dict [("name", JStr "Null Island"); ("region", JNull);
        ("country", JStr "Atlantic Ocean");
        ("lat", JInt 0); ("lon", JInt 0)].

(** A provider payload for [location], observed at [epoch]. *)
Definition payload (location : json) (epoch : Z) (temp_c : Decimal) (cloud : Z)
    : json :=
  dict [("location", location);
        ("current",
         dict [("last_updated_epoch", JInt epoch);
               ("last_updated", JStr "2023-11-14 22:15");
               ("temp_c", JFloat temp_c);
               ("is_day", JInt 0);
               ("condition", dict [("text", JStr "Clear"); ("code", JInt 1000)]);
               ("humidity", JInt 0);
               ("cloud", JInt cloud);
               ("precip_mm", JFloat (DFin 0 (-1)))])].

Definition older : json := payload london 1700000000 (DFin 110 (-1)) 25.
Definition newer : json := payload london 1700000900 (DFin 125 (-1)) 0.

(** The store after [london] was upserted and [older], then [newer], were
    appended. *)
Definition db_two_readings : Database :=
  let db1 := fst (DatabaseManager.insert_or_get_location true empty_database london) in
  let db2 := fst (DatabaseManager.insert_weather_data true db1 1 older) in
  fst (DatabaseManager.insert_weather_data true db2 1 newer).

(** The same store after a reading for [paris] was stored as well. *)
Definition db_two_cities : Database :=
  let db1 := fst (DatabaseManager.insert_or_get_location true db_two_readings paris) in
  fst (DatabaseManager.insert_weather_data true db1 2
         (payload paris 1700000500 (DFin 90 (-1)) 75)).

Definition quiet (h : HttpResult) (store_up : bool) : TaskEnv :=
  {| wait_for_lock := 0; oversleep := 0; before_record := 0; round_trip := 0;
     http := h; connect_location := store_up; connect_weather := store_up;
     completion_rank := 0 |}.


(** A payload without the ["current"] member. *)
Definition no_current : json := dict [("location", london)].


Definition not_modified : HttpResult :=
  Response 304
    (Raise (Exception "JSONDecodeError" "Expecting value: line 1 column 1 (char 0)")).

End Examples.

(** ** Invariants of the store *)

(** What the schema guarantees of a stored state: the UNIQUE constraint, the
    two primary keys (ids are distinct and were handed out by the
    sequences), the NOT NULL columns and the foreign key. *)
Record store_invariant (db : Database) : Prop := {
  inv_unique : unique_constraint db;
  inv_location_ids : NoDup (l_id <$> locations db);
  inv_location_seq : Forall (fun r => l_id r < locations_id_seq db) (locations db);
  inv_location_not_null :
    Forall (fun r => is_Some (l_name (l_values r))
                     /\ is_Some (l_country (l_values r))) (locations db);
  inv_weather_ids : NoDup (w_id <$> weather db);
  inv_weather_seq : Forall (fun r => w_id r < weather_id_seq db) (weather db);
  inv_weather_not_null :
    Forall (fun r => is_Some (w_last_updated_epoch (w_values r))
                     /\ is_Some (w_last_updated (w_values r))) (weather db);
  inv_foreign_key :
    Forall (fun r => references_location db (w_location_id (w_values r)) = true)
      (weather db)
}.

(** What never changes of a location row once it is stored. *)
Definition location_key (r : LocationRow)
    : Z * (option string * option string * option string) * Z :=
  (l_id r, identity r, l_created_at r).

(** [db'] is [db] with rows added and nothing removed or rewritten: the
    readings of [db] are the first readings of [db'] and the locations of
    [db] are the first locations of [db'], with their ids, identities and
    creation times. *)
Definition append_only (db db' : Database) : Prop :=
  weather db `prefix_of` weather db'
  /\ (location_key <$> locations db) `prefix_of` (location_key <$> locations db')
  /\ locations_id_seq db <= locations_id_seq db'
  /\ weather_id_seq db <= weather_id_seq db'.

(** Both tables are as they were. *)
Definition same_tables (db db' : Database) : Prop :=
  locations db' = locations db /\ weather db' = weather db.

(** ** Request and query surface *)

(** [dict.fromkeys(keys)] listed again: the keys without repetition, in the
    order of their first occurrence (the home page does this to the city
    list before it submits it). *)
Definition dict_fromkeys (keys : list string) : list string :=
  fold_left (fun d k => if bool_decide (k ∈ d) then d else d ++ [k]) keys [].

Module Str.

(** Strings are UTF-8 encoded.  The white space of [str.strip]: the code
    points U+0009 to U+000D, U+001C to U+0020, U+0085, U+00A0, U+1680,
    U+2000 to U+200A, U+2028, U+2029, U+202F, U+205F and U+3000, by the
    bytes of their encodings. *)
Definition is_space1 (a : Ascii.ascii) : bool :=
  let n := Ascii.N_of_ascii a in
  (((9 <=? n) && (n <=? 13)) || ((28 <=? n) && (n <=? 32)))%N.

Definition is_space2 (a b : Ascii.ascii) : bool :=
  (Ascii.N_of_ascii a =? 194)%N
  && ((Ascii.N_of_ascii b =? 133) || (Ascii.N_of_ascii b =? 160))%N.

Definition is_space3 (a b c : Ascii.ascii) : bool :=
  let '(x, y, z) := (Ascii.N_of_ascii a, Ascii.N_of_ascii b, Ascii.N_of_ascii c) in
  (((x =? 225) && (y =? 154) && (z =? 128))
   || ((x =? 226) && (y =? 128)
       && (((128 <=? z) && (z <=? 138)) || (z =? 168) || (z =? 169) || (z =? 175)))
   || ((x =? 226) && (y =? 129) && (z =? 159))
   || ((x =? 227) && (y =? 128) && (z =? 128)))%N.

(** Drop the white space at the front; [backwards] reads the bytes of a code
    point last byte first, as they come in a reversed string. *)
Fixpoint drop_space (backwards : bool) (s : string) : string :=
  match s with
  | String a r1 =>
      if is_space1 a then drop_space backwards r1
      else
        match r1 with
        | String b r2 =>
            if (if backwards then is_space2 b a else is_space2 a b)
            then drop_space backwards r2
            else
              match r2 with
              | String c r3 =>
                  if (if backwards then is_space3 c b a else is_space3 a b c)
                  then drop_space backwards r3
                  else s
              | EmptyString => s
              end
        | EmptyString => s
        end
  | EmptyString => EmptyString
  end.

Definition lstrip (s : string) : string := drop_space false s.

Definition rstrip (s : string) : string :=
  String.rev (drop_space true (String.rev s)).

(** [s.strip()]. *)
Definition strip (s : string) : string := rstrip (lstrip s).

End Str.

(** Whether the JSON number [d] is read as the float zero: it is zero, or so
    small that the nearest binary64 number is zero. *)
Definition float_is_zero (d : Decimal) : bool :=
  match d with
  | DFin c e =>
      (c =? 0)
      || ((e <? 0) && (Z.abs c * 2 ^ 1075 <=? 10 ^ (- e)))
  | DNaN => false
  end.

(** [bool(v)] for a decoded JSON value. *)
Definition py_truthy (v : json) : bool :=
  match v with
  | JNull => false
  | JBool b => b
  | JInt z => negb (z =? 0)
  | JFloat d => negb (float_is_zero d)
  | JStr s => negb (String.eqb s "")
  | JArr l => negb (length l =? 0)%nat
  | JObj m => negb (size m =? 0)%nat
  end.

(** What a handler sees of the HTTP request: [request.is_json] and what
    [request.get_json()] returns or raises. *)
Record Request := {
  is_json : bool;
  get_json : result json
}.

(** What a handler returns: [jsonify] of one of the dicts below, with the
    HTTP status. *)
Inductive Reply :=
| Failed (status : Z) (error : string)
    (* {"success": False, "error": error} *)
| Processed (status : Z) (response : BatchResponse)
    (* the dict of [process_weather_request] *)
| RecentData (status : Z) (id : string)
    (data : list DatabaseManager.weather_item) (cities_count : nat)
    (requested_at : Z)
    (* {"success": True, "request_id": id, "data": data, ...} *)
| RecentRequests (status : Z) (requests : list RequestRecord) (count : nat).
    (* {"success": True, "requests": requests, "count": count} *)


Definition internal_error (e : exn) : Reply :=
  Failed 500 ("Internal server error: " +:+ exn_str e).

(** The loop of [process_weather] that cleans and validates the city
    names. *)
Definition clean (cities : list json) : list string :=
  fold_left
    (fun clean_cities city =>
       match city with
       | JStr s =>
           if negb (String.eqb (Str.strip s) "")
           then clean_cities ++ [Str.strip s]
           else clean_cities
       | _ => clean_cities
       end)
    cities [].

(** [process_weather()], the handler of POST /process-weather. *)
Definition process_weather (w : World) (env : nat -> TaskEnv) (uuid4 : string)
    (request : Request) : World * Reply :=
  if negb (is_json request) then
    (w, Failed 400 "Content-Type must be application/json")
  else
    match data ← get_json request; py_get data "cities" with
    | Raise e => (w, internal_error e)
    | Return found =>
        let cities := default (JArr []) found in
        if negb (py_truthy cities) then (w, Failed 400 "No cities provided")
        else
          match cities with
          | JArr l =>
              let clean_cities := clean l in
              if (length clean_cities =? 0)%nat then
                (w, Failed 400 "No valid city names provided")
              else if (20 <? length clean_cities)%nat then
                (w, Failed 400 "Too many cities requested (max 20)")
              else
                let '(w', weather_response) :=
                  process_weather_request w env uuid4 clean_cities in
                (w', Processed (if success weather_response then 200 else 500)
                       weather_response)
          | _ => (w, Failed 400 "Cities must be provided as an array")
          end
    end.

(** [get_recent_data()], the handler of GET /get-recent-data. *)
Definition get_recent_data (connected : bool) (w : World) : Reply :=
  match last (recent_requests w) with
  | None => Failed 404 "No recent requests found"
  | Some latest_request =>
      let city_names := rr_cities latest_request in
      if (length city_names =? 0)%nat then
        Failed 404 "No successful cities in recent request"
      else
        match DatabaseManager.get_recent_weather_data connected (db w)
                city_names 10 with
        | Raise e => internal_error e
        | Return weather_data =>
            if (length weather_data =? 0)%nat then
              Failed 404 "No weather data found for recent cities"
            else
              RecentData 200 (rr_request_id latest_request) weather_data
                (length weather_data) (rr_requested_at latest_request)
        end
  end.

(** [get_recent_requests()], the handler of GET /recent-requests. *)
Definition get_recent_requests (w : World) : Reply :=
  RecentRequests 200 (recent_requests w) (length (recent_requests w)).

(** ** Notions used in the statements about the store and the handlers *)

(** What the UPDATE of [update_location] does to one row. *)
Definition touch (id : Z) (v : LocationValues) (now : Z) (r : LocationRow) : LocationRow :=
  if l_id r =? id then set_mutable v now r else r.

(** The columns of a location that the UPDATE sets. *)
Definition mutable_part (v : LocationValues)
    : option Decimal * option Decimal * option string * option Z * option string :=
  (l_lat v, l_lon v, l_tz_id v, l_localtime_epoch v, l_localtime_string v).

(** A JSON member that is absent or [null]: [dict.get] gives [None] for
    both. *)
Definition is_null (v : option json) : Prop := v = None \/ v = Some JNull.

(** The decoded body of the provider's response, when there is one. *)
Definition response_body (h : HttpResult) : option json :=
  match h with
  | Response _ (Return data) => Some data
  | _ => None
  end.

(** What the list comprehension of [process_weather] keeps of one entry of
    the submitted array. *)
Definition clean_city (city : json) : option string :=
  match city with
  | JStr s => if String.eqb (Str.strip s) "" then None else Some (Str.strip s)
  | _ => None
  end.


(** ** More example data *)

Module Scenarios.

Import Examples.


(** A reading of 12.345 degrees, and one of 1234.5 degrees. *)
Definition chilly : json := payload london 1700001800 (DFin 12345 (-3)) 10.
Definition scorching : json := payload london 1700001800 (DFin 12345 (-1)) 10.

(** The store after [london] was upserted. *)
Definition db_london : Database :=
  fst (DatabaseManager.insert_or_get_location true empty_database london).

(** The store after [older] was appended for it. *)
Definition db_one_reading : Database :=
  fst (DatabaseManager.insert_weather_data true db_london 1 older).

(** A task for which the provider answers 200 with [older] and the store is
    reachable. *)
Definition answers_older (i : nat) : TaskEnv := quiet (Response 200 (Return older)) true.

Definition times_out (i : nat) : TaskEnv := quiet RequestTimeout true.

(** A request whose body is [{"cities": cities}]. *)
Definition post (cities : json) : Request :=
  {| is_json := true; get_json := Return (dict [("cities", cities)]) |}.


End Scenarios.


(** * Properties *)

(** ** Rate limiter *)

Section RateLimiter.

Lemma acquire_recorded clock last env :
  fst (acquire clock last env) = snd (acquire clock last env).
Proof. reflexivity. Qed.

Lemma acquire_after_clock clock last env :
  clock <= snd (acquire clock last env).
Proof.
  unfold acquire; cbn [snd]. unfold MIN_REQUEST_INTERVAL.
  destruct (Z.ltb_spec (clock + Z.of_N (wait_for_lock env) - last) 100000000); lia.
Qed.

Lemma acquire_after_interval clock last env :
  last + MIN_REQUEST_INTERVAL <= snd (acquire clock last env).
Proof.
  unfold acquire; cbn [snd]. unfold MIN_REQUEST_INTERVAL.
  destruct (Z.ltb_spec (clock + Z.of_N (wait_for_lock env) - last) 100000000); lia.
Qed.

Lemma rate_limited_request_last w env :
  last_request_time (fst (rate_limited_request w env))
  = snd (acquire (clock w) (last_request_time w) env).
Proof. reflexivity. Qed.

Lemma rate_limited_request_clock w env :
  clock (fst (rate_limited_request w env))
  = snd (acquire (clock w) (last_request_time w) env) + Z.of_N (round_trip env).
Proof. reflexivity. Qed.

Lemma sequential_requests_cons w env rest :
  sequential_requests w (env :: rest)
  = (fst (sequential_requests (fst (rate_limited_request w env)) rest),
     last_request_time (fst (rate_limited_request w env))
       :: snd (sequential_requests (fst (rate_limited_request w env)) rest)).
Proof.
  cbn [sequential_requests].
  destruct (sequential_requests (fst (rate_limited_request w env)) rest); reflexivity.
Qed.

Lemma sequential_requests_length envs : forall w,
  length (snd (sequential_requests w envs)) = length envs.
Proof.
  induction envs as [|env rest IH]; intros w; [reflexivity|].
  rewrite sequential_requests_cons; cbn [snd length]. by rewrite IH.
Qed.

Lemma sequential_requests_bounds envs : forall w,
  clock w <= clock (fst (sequential_requests w envs))
  /\ Forall (fun t => last_request_time w + MIN_REQUEST_INTERVAL <= t
                      /\ clock w <= t
                      /\ t <= clock (fst (sequential_requests w envs)))
       (snd (sequential_requests w envs)).
Proof.
  induction envs as [|env rest IH]; intros w.
  - cbn. split; [lia | constructor].
  - rewrite sequential_requests_cons; cbn [fst snd].
    set (w1 := fst (rate_limited_request w env)).
    destruct (IH w1) as [Hc Hall].
    pose proof (acquire_after_clock (clock w) (last_request_time w) env) as H1.
    pose proof (acquire_after_interval (clock w) (last_request_time w) env) as H2.
    assert (Hl : last_request_time w1 = snd (acquire (clock w) (last_request_time w) env))
      by reflexivity.
    assert (Hk : clock w1 = last_request_time w1 + Z.of_N (round_trip env))
      by reflexivity.
    split; [lia|]. constructor.
    + lia.
    + eapply Forall_impl; [exact Hall|]. cbn beta. intros t (Ha & Hb & Hd).
      unfold MIN_REQUEST_INTERVAL in *. lia.
Qed.

Lemma sequential_requests_spaced envs : forall w i j ti tj,
  snd (sequential_requests w envs) !! i = Some ti ->
  snd (sequential_requests w envs) !! j = Some tj ->
  (i < j)%nat ->
  ti + Z.of_nat (j - i) * MIN_REQUEST_INTERVAL <= tj.
Proof.
  induction envs as [|env rest IH]; intros w i j ti tj.
  - cbn. intros Hi. by rewrite lookup_nil in Hi.
  - rewrite sequential_requests_cons; cbn [snd].
    generalize (fst (rate_limited_request w env)); intros w1.
    destruct j as [|j]; [lia|]. destruct i as [|i]; cbn [lookup list_lookup].
    + intros [= <-] Hj _.
      destruct (sequential_requests_bounds rest w1) as [_ Hall].
      destruct j as [|j].
      * rewrite Forall_lookup in Hall. specialize (Hall _ _ Hj). cbn beta in Hall. unfold MIN_REQUEST_INTERVAL in *. lia.
      * assert (exists t0, snd (sequential_requests w1 rest) !! 0%nat = Some t0) as [t0 H0].
        { apply lookup_lt_is_Some_2. apply lookup_lt_Some in Hj. lia. }
        pose proof (IH w1 0%nat (S j) t0 tj H0 Hj ltac:(lia)) as Hs.
        rewrite Forall_lookup in Hall. specialize (Hall _ _ H0). cbn beta in Hall.
        unfold MIN_REQUEST_INTERVAL in *. lia.
    + intros Hi Hj Hlt.
      pose proof (IH w1 i j ti tj Hi Hj ltac:(lia)) as Hs.
      replace (S j - S i)%nat with (j - i)%nat by lia. exact Hs.
Qed.

(** C8.  There is one [last_request_time] for all callers, and [K] calls
    of the rate limiter made one after the other, whatever the delays the
    environment adds, are granted at times that are pairwise at least
    [MIN_REQUEST_INTERVAL] (100ms) apart, the first of them at least that
    long after the previously recorded call; the [K] calls together take at
    least [(K - 1) * MIN_REQUEST_INTERVAL]. *)
Theorem rate_limiter_minimum_spacing (w : World) (envs : list TaskEnv) :
  let K := Z.of_nat (length envs) in
  let w' := fst (sequential_requests w envs) in
  let starts := snd (sequential_requests w envs) in
  length starts = length envs
  /\ Forall (fun t => last_request_time w + MIN_REQUEST_INTERVAL <= t) starts
  /\ (forall i j ti tj, starts !! i = Some ti -> starts !! j = Some tj ->
        (i < j)%nat -> ti + MIN_REQUEST_INTERVAL <= tj)
  /\ (K - 1) * MIN_REQUEST_INTERVAL <= clock w' - clock w
  /\ MIN_REQUEST_INTERVAL = 100000000.
Proof.
  cbn zeta. split; [apply sequential_requests_length|].
  destruct (sequential_requests_bounds envs w) as [Hc Hall].
  split; [eapply Forall_impl; [exact Hall|]; cbn; intros; lia|].
  split.
  { intros i j ti tj Hi Hj Hlt.
    pose proof (sequential_requests_spaced envs w i j ti tj Hi Hj Hlt).
    unfold MIN_REQUEST_INTERVAL in *. nia. }
  split; [|reflexivity].
  pose proof (sequential_requests_length envs w) as Hlen.
  destruct (snd (sequential_requests w envs)) as [|t0 ts] eqn:E.
  - cbn in Hlen. rewrite <- Hlen. unfold MIN_REQUEST_INTERVAL. cbn. lia.
  - destruct (last (t0 :: ts)) as [tl|] eqn:El; [|by apply last_None in El].
    rewrite last_lookup in El. cbn [length Nat.pred] in El.
    rewrite Forall_lookup in Hall.
    pose proof (Hall _ _ El) as (_ & _ & Hup).
    pose proof (Hall 0%nat t0 eq_refl) as (_ & Hlo & _).
    destruct ts as [|t1 ts'].
    + cbn in Hlen. rewrite <- Hlen. cbn. lia.
    + pose proof (sequential_requests_spaced envs w 0%nat (length (t1 :: ts')) t0 tl) as Hs.
      rewrite E in Hs. specialize (Hs eq_refl El ltac:(cbn; lia)).
      rewrite <- Hlen. cbn [length] in *. unfold MIN_REQUEST_INTERVAL in *. lia.
Qed.

End RateLimiter.

(** ** Fan-out orchestrator *)

Section Orchestrator.

Lemma get_weather_for_city_outcome w env city :
  snd (get_weather_for_city w env city) = (city, outcome env city).
Proof.
  unfold outcome, get_weather_for_city, rate_limited_request.
  destruct (acquire (clock w) (last_request_time w) env) as [now last].
  destruct (acquire (clock initial_world) (last_request_time initial_world) env)
    as [now0 last0].
  destruct (http env) as [|msg|status_code [data|e]]; try reflexivity;
    destruct (raises_for_status status_code); try reflexivity.
  destruct (invalid_structure data) as [[|]|e]; try reflexivity.
  do 2 match goal with
       | |- context [store_in_database ?a ?b ?c] =>
           destruct (store_in_database a b c)
       end.
  reflexivity.
Qed.

Lemma run_tasks_futures env cities : forall w i,
  snd (run_tasks w env i cities) = imap (fun k => future_of env (i + k)) cities.
Proof.
  induction cities as [|city rest IH]; intros w i; [reflexivity|].
  cbn [run_tasks imap].
  pose proof (get_weather_for_city_outcome w (env i) city) as Ho.
  destruct (get_weather_for_city w (env i) city) as [w1 r]. cbn [snd] in Ho.
  specialize (IH w1 (S i)).
  destruct (run_tasks w1 env (S i) rest) as [w2 futures]. cbn [snd] in *.
  subst r futures. unfold future_of at 1. rewrite Nat.add_0_r. f_equal.
  apply imap_ext. intros k c _. cbn. replace (i + S k)%nat with (S (i + k)) by lia. reflexivity.
Qed.

Lemma insert_completed_perm f l : insert_completed f l ≡ₚ f :: l.
Proof.
  induction l as [|g l IH]; [reflexivity|]. cbn [insert_completed].
  destruct (future_rank f <=? future_rank g)%nat; [reflexivity|].
  rewrite IH. apply Permutation_swap.
Qed.

Lemma as_completed_perm futures : as_completed futures ≡ₚ futures.
Proof.
  induction futures as [|f l IH]; [reflexivity|].
  unfold as_completed in *. cbn [foldr]. rewrite insert_completed_perm.
  by constructor.
Qed.

Lemma collect_counts acc f :
  length (results (collect acc f))
    = (length (results acc) + (if future_ok f then 1 else 0))%nat
  /\ length (errors (collect acc f))
    = (length (errors acc) + (if future_ok f then 0 else 1))%nat
  /\ length (successful_cities (collect acc f))
    = (length (successful_cities acc) + (if future_ok f then 1 else 0))%nat.
Proof.
  unfold collect, future_ok, is_successful.
  destruct (future_result f) as [city_name [d|]]; cbn [snd].
  - destruct (py_in "error" d) as [[|]|e].
    + destruct (py_getitem d "message"); cbn; rewrite ?length_app; cbn; lia.
    + cbn; rewrite ?length_app; cbn; lia.
    + cbn; rewrite ?length_app; cbn; lia.
  - cbn; rewrite ?length_app; cbn; lia.
Qed.

Lemma fold_collect_counts futures : forall acc,
  length (results (fold_left collect futures acc))
    = (length (results acc) + length (filter (fun f => future_ok f = true) futures))%nat
  /\ length (errors (fold_left collect futures acc))
    = (length (errors acc) + length (filter (fun f => future_ok f <> true) futures))%nat.
Proof.
  induction futures as [|f l IH]; intros acc; cbn [fold_left].
  - cbn. lia.
  - destruct (IH (collect acc f)) as [-> ->].
    destruct (collect_counts acc f) as (-> & -> & _).
    rewrite !filter_cons. destruct (future_ok f); repeat case_decide; try done; cbn [length]; lia.
Qed.

Lemma process_weather_request_counts w env uuid4 cities :
  let r := snd (process_weather_request w env uuid4 cities) in
  let futures := imap (fun k => future_of env k) cities in
  successful_count r = length (filter (fun f => future_ok f = true) futures)
  /\ failed_cities r = length (filter (fun f => future_ok f <> true) futures)
  /\ failed_cities r = length (error_list r)
  /\ success r = (0 <? successful_count r)%nat.
Proof.
  cbn zeta. unfold process_weather_request.
  pose proof (run_tasks_futures env cities w 0) as Hf.
  destruct (run_tasks w env 0 cities) as [w1 futures]. cbn [snd] in *.
  subst futures. cbn [Nat.add].
  set (futures := imap (fun k => future_of env k) cities).
  destruct (fold_collect_counts (as_completed futures)
              {| results := []; errors := []; successful_cities := [] |})
    as [Hr He].
  cbn [successful_count failed_cities error_list success results errors length Nat.add] in *.
  rewrite Hr, He.
  pose proof (as_completed_perm futures) as Hp.
  split; [|split; [|split]].
  - apply Permutation_length. by rewrite Hp.
  - apply Permutation_length. by rewrite Hp.
  - reflexivity.
  - reflexivity.
Qed.

(** C2.  For every city list, the number of successful cities plus the
    number of failed cities reported by [process_weather_request] is the
    length of the list: every submitted city, duplicates included, ends up
    exactly once in the results or in the error list. *)
Theorem batch_accounts_for_every_city (w : World) (env : nat -> TaskEnv)
    (uuid4 : string) (cities : list string) :
  let r := snd (process_weather_request w env uuid4 cities) in
  (successful_count r + failed_cities r = length cities)%nat
  /\ failed_cities r = length (error_list r)
  /\ requested_cities r = cities.
Proof.
  cbn zeta.
  destruct (process_weather_request_counts w env uuid4 cities) as (Hs & Hf & He & _).
  split; [|split].
  - rewrite Hs, Hf.
    set (futures := imap (fun k => future_of env k) cities).
    rewrite <- length_app.
    rewrite (Permutation_length (filter_app_complement _ futures)).
    subst futures. by rewrite length_imap.
  - exact He.
  - unfold process_weather_request.
    by destruct (run_tasks w env 0 cities).
Qed.

(** C3.  The batch is reported successful exactly when at least one city
    succeeded: failing cities never abort the batch, and [success] is false
    exactly when no city succeeded. *)
Theorem batch_success_iff_a_city_succeeded (w : World) (env : nat -> TaskEnv)
    (uuid4 : string) (cities : list string) :
  let r := snd (process_weather_request w env uuid4 cities) in
  (success r = true <->
     exists i city, cities !! i = Some city
                    /\ is_successful (outcome (env i) city) = true)
  /\ (success r = true <-> (0 < successful_count r)%nat)
  /\ (success r = false <-> successful_count r = 0%nat)
  /\ length (error_list r)
     = length (filter (fun f => future_ok f <> true)
                 (imap (fun k => future_of env k) cities)).
Proof.
  cbn zeta.
  destruct (process_weather_request_counts w env uuid4 cities) as (Hs & Hf & He & Hb).
  rewrite Hb. split; [|split; [|split]]; [| | |by rewrite <- He, Hf].
  - rewrite Nat.ltb_lt, Hs. split.
    + intros Hlen.
      destruct (filter (fun f => future_ok f = true)
                  (imap (fun k => future_of env k) cities)) as [|f l] eqn:E;
        [cbn in Hlen; lia|].
      assert (Hin : f ∈ filter (fun f => future_ok f = true)
                  (imap (fun k => future_of env k) cities)) by (rewrite E; left).
      apply list_elem_of_filter in Hin as [Hok Hin].
      apply list_elem_of_lookup in Hin as [i Hi].
      rewrite list_lookup_imap in Hi.
      destruct (cities !! i) as [city|] eqn:Hc; [|done].
      cbn in Hi. injection Hi as <-. by exists i, city.
    + intros (i & city & Hc & Hok).
      assert (Hin : future_of env i city ∈ filter (fun f => future_ok f = true)
                  (imap (fun k => future_of env k) cities)).
      { apply list_elem_of_filter. split; [exact Hok|].
        apply list_elem_of_lookup. exists i. rewrite list_lookup_imap, Hc. done. }
      destruct (filter _ _); [by apply elem_of_nil in Hin | cbn; lia].
  - apply Nat.ltb_lt.
  - rewrite Nat.ltb_ge. lia.
Qed.

End Orchestrator.

(** ** Weather fetcher *)

Section Fetcher.

Import Examples.


Lemma raises_for_status_true status_code :
  raises_for_status status_code = true <-> 400 <= status_code < 600.
Proof. unfold raises_for_status. lia. Qed.



Lemma rate_limited_request_store w env :
  db (fst (rate_limited_request w env)) = db w
  /\ db_calls (fst (rate_limited_request w env)) = db_calls w
  /\ snd (rate_limited_request w env) = http env.
Proof.
  unfold rate_limited_request.
  by destruct (acquire (clock w) (last_request_time w) env).
Qed.

Lemma get_weather_for_city_response w env city status_code data :
  http env = Response status_code (Return data) ->
  raises_for_status status_code = false ->
  get_weather_for_city w env city =
    match invalid_structure data with
    | Raise e => (fst (rate_limited_request w env),
                  (city, Some (unexpected_dict (exn_str e))))
    | Return true => (fst (rate_limited_request w env), (city, None))
    | Return false =>
        (fst (store_in_database (fst (rate_limited_request w env)) env data),
         (city, Some data))
    end.
Proof.
  intros Hh Hs. unfold get_weather_for_city.
  destruct (rate_limited_request_store w env) as (_ & _ & Hr).
  destruct (rate_limited_request w env) as [w1 response]. cbn [fst snd] in *.
  subst response. rewrite Hh, Hs.
  destruct (invalid_structure data) as [[|]|e]; try reflexivity.
  by destruct (store_in_database w1 env data).
Qed.










End Fetcher.

(** ** Failure taxonomy *)

Section Taxonomy.

Import Examples.

Lemma get_weather_for_city_http w env city :
  snd (get_weather_for_city w env city) =
    match http env with
    | RequestTimeout => (city, Some (error_dict "timeout" ("Request timeout for " +:+ city)))
    | RequestFailed msg => (city, Some (unexpected_dict msg))
    | Response status_code body =>
        if raises_for_status status_code
        then (city, Some (http_error_dict city status_code))
        else snd (get_weather_for_city w env city)
    end.
Proof.
  unfold get_weather_for_city, rate_limited_request.
  destruct (acquire (clock w) (last_request_time w) env) as [now last].
  destruct (http env) as [|msg|status_code body]; try reflexivity.
  by destruct (raises_for_status status_code).
Qed.

Lemma tag_string_inj t t' : tag_string t = tag_string t' -> t = t'.
Proof. destruct t, t'; cbn; congruence. Qed.

Lemma has_tag_unique o t t' : has_tag o t -> has_tag o t' -> t = t'.
Proof. unfold has_tag. intros -> [= H]. by apply tag_string_inj. Qed.

Lemma error_dict_tag error message :
  error_tag (Some (error_dict error message)) = Some error
  /\ error_message (Some (error_dict error message)) = Some message.
Proof.
  unfold error_tag, error_message, error_dict. split.
  - by rewrite lookup_insert_eq.
  - rewrite lookup_insert_ne by done. by rewrite lookup_insert_eq.
Qed.

(** C7, as amended.  The fetch of [city] returns [city] with an outcome that
    carries at most one tag, fixed by the cause: a request timeout gives
    [timeout]; status 400 gives [not_found]; 401 gives [auth]; 403 gives
    [rate_limited]; any other status from 400 to 599, the statuses for which
    the HTTP library raises, gives [http_error] with the status code in the
    message; any other exception gives [unexpected]. *)
Theorem failure_taxonomy (w : World) (env : TaskEnv) (city : string) :
  let r := snd (get_weather_for_city w env city) in
  fst r = city
  /\ (forall t t', has_tag (snd r) t -> has_tag (snd r) t' -> t = t')
  /\ (http env = RequestTimeout -> has_tag (snd r) timeout)
  /\ (forall body, http env = Response 400 body -> has_tag (snd r) not_found)
  /\ (forall body, http env = Response 401 body -> has_tag (snd r) auth)
  /\ (forall body, http env = Response 403 body -> has_tag (snd r) rate_limited)
  /\ (forall status_code body,
        http env = Response status_code body ->
        400 <= status_code < 600 ->
        status_code <> 400 -> status_code <> 401 -> status_code <> 403 ->
        has_tag (snd r) http_error
        /\ error_message (snd r)
           = Some ("HTTP " +:+ pretty status_code +:+ " error for " +:+ city))
  /\ (forall msg, http env = RequestFailed msg -> has_tag (snd r) unexpected)
  /\ (forall status_code e,
        http env = Response status_code (Raise e) ->
        raises_for_status status_code = false ->
        has_tag (snd r) unexpected)
  /\ (forall status_code data e,
        http env = Response status_code (Return data) ->
        raises_for_status status_code = false ->
        invalid_structure data = Raise e ->
        has_tag (snd r) unexpected).
Proof.
  cbn zeta. split; [|split].
  { by rewrite get_weather_for_city_outcome. }
  { intros t t'. apply has_tag_unique. }
  rewrite get_weather_for_city_http. unfold has_tag.
  split; [|split; [|split; [|split; [|split; [|split; [|split]]]]]].
  - intros ->. apply error_dict_tag.
  - intros body ->. change (raises_for_status 400) with true.
    change (http_error_dict city 400)
      with (error_dict "not_found" ("City '" +:+ city +:+ "' not found")).
    apply error_dict_tag.
  - intros body ->. change (raises_for_status 401) with true.
    change (http_error_dict city 401) with (error_dict "auth" "Invalid API key").
    apply error_dict_tag.
  - intros body ->. change (raises_for_status 403) with true.
    change (http_error_dict city 403)
      with (error_dict "limit" "API request limit exceeded").
    apply error_dict_tag.
  - intros status_code body -> Hr H400 H401 H403.
    apply raises_for_status_true in Hr. rewrite Hr. unfold http_error_dict.
    destruct (Z.eqb_spec status_code 400); [done|].
    destruct (Z.eqb_spec status_code 401); [done|].
    destruct (Z.eqb_spec status_code 403); [done|].
    cbn [snd]. apply error_dict_tag.
  - intros msg ->. apply error_dict_tag.
  - intros status_code e Hh Hr. rewrite Hh, Hr.
    unfold get_weather_for_city.
    destruct (rate_limited_request_store w env) as (_ & _ & Hresp).
    destruct (rate_limited_request w env) as [w1 response]. cbn [snd] in Hresp.
    subst response. rewrite Hh, Hr. apply error_dict_tag.
  - intros status_code data e Hh Hr Hv. rewrite Hh, Hr.
    rewrite (get_weather_for_city_response w env city status_code data Hh Hr), Hv.
    apply error_dict_tag.
Qed.

(** C7 as stated fails: status 304 is neither a 2xx status nor one of 400,
    401 and 403, and the outcome is tagged [unexpected], not [http_error]. *)
Lemma not_modified_is_not_http_error :
  let r := snd (get_weather_for_city initial_world (quiet not_modified true) "London") in
  http (quiet not_modified true)
    = Response 304
        (Raise (Exception "JSONDecodeError" "Expecting value: line 1 column 1 (char 0)"))
  /\ ~ (200 <= 304 < 300)
  /\ has_tag (snd r) unexpected
  /\ ~ has_tag (snd r) http_error.
Proof.
  cbn zeta. split; [reflexivity|]. split; [lia|]. split.
  - vm_compute. reflexivity.
  - vm_compute. discriminate.
Qed.

Lemma failure_taxonomy_witness :
  has_tag (outcome (quiet RequestTimeout true) "London") timeout
  /\ has_tag (outcome (quiet (Response 400 (Raise (Exception "ValueError" ""))) true) "Atlantis")
       not_found
  /\ has_tag (outcome (quiet (Response 401 (Raise (Exception "ValueError" ""))) true) "London")
       auth
  /\ has_tag (outcome (quiet (Response 403 (Raise (Exception "ValueError" ""))) true) "London")
       rate_limited
  /\ has_tag (outcome (quiet (Response 503 (Raise (Exception "ValueError" ""))) true) "London")
       http_error
  /\ error_message
       (outcome (quiet (Response 503 (Raise (Exception "ValueError" ""))) true) "London")
     = Some "HTTP 503 error for London"
  /\ has_tag (outcome (quiet (RequestFailed "connection refused") true) "London")
       unexpected
  /\ has_tag (outcome (quiet not_modified true) "London") unexpected
  /\ has_tag (outcome (quiet (Response 200 (Return (JInt 7))) true) "London") unexpected.
Proof.
  unfold outcome.
  split; [|split; [|split; [|split; [|split; [|split; [|split; [|split]]]]]]].
  - apply (failure_taxonomy initial_world (quiet RequestTimeout true) "London").
    reflexivity.
  - eapply (failure_taxonomy initial_world (quiet (Response 400 _) true) "Atlantis").
    reflexivity.
  - eapply (failure_taxonomy initial_world (quiet (Response 401 _) true) "London").
    reflexivity.
  - eapply (failure_taxonomy initial_world (quiet (Response 403 _) true) "London").
    reflexivity.
  - destruct (failure_taxonomy initial_world
                (quiet (Response 503 (Raise (Exception "ValueError" ""))) true) "London")
      as (_ & _ & _ & _ & _ & _ & H & _).
    apply (H 503 _ eq_refl); lia.
  - destruct (failure_taxonomy initial_world
                (quiet (Response 503 (Raise (Exception "ValueError" ""))) true) "London")
      as (_ & _ & _ & _ & _ & _ & H & _).
    destruct (H 503 _ eq_refl) as [_ Hm]; [lia | lia | lia | lia |].
    exact Hm.
  - destruct (failure_taxonomy initial_world
                (quiet (RequestFailed "connection refused") true) "London")
      as (_ & _ & _ & _ & _ & _ & _ & H & _).
    apply (H _ eq_refl).
  - destruct (failure_taxonomy initial_world (quiet not_modified true) "London")
      as (_ & _ & _ & _ & _ & _ & _ & _ & H & _).
    apply (H 304 _ eq_refl eq_refl).
  - destruct (failure_taxonomy initial_world
                (quiet (Response 200 (Return (JInt 7))) true) "London")
      as (_ & _ & _ & _ & _ & _ & _ & _ & _ & H).
    apply (H 200 (JInt 7) _ eq_refl eq_refl eq_refl).
Defined.

End Taxonomy.

(** ** Recent readings *)

Section Recent.

Import DatabaseManager Examples.

Lemma fold_left_last {A B} (f : A -> B) (l : list A) (acc : option B) :
  fold_left (fun _ x => Some (f x)) l acc
  = match last l with Some x => Some (f x) | None => acc end.
Proof.
  revert acc. induction l as [|x l IH]; intros acc; [reflexivity|].
  cbn [fold_left]. rewrite IH. destruct l as [|y l]; [done|].
  rewrite last_cons_cons.
  destruct (last (y :: l)) eqn:E; [done | by apply last_None in E].
Qed.

Lemma loop_bindings_last results :
  loop_bindings results
  = (fun row => (row, l_name (l_values (fst row)))) <$> last results.
Proof.
  unfold loop_bindings.
  rewrite (fold_left_last (fun row => (row, l_name (l_values (fst row))))).
  by destruct (last results).
Qed.

Lemma get_recent_weather_data_rows db city_names limit rows :
  select_recent db city_names (limit * Z.of_nat (length city_names)) = Return rows ->
  get_recent_weather_data true db city_names limit
  = match last rows with
    | Some row => Return [make_weather_item row]
    | None => Raise UnboundLocalError
    end.
Proof.
  intros Hq. unfold get_recent_weather_data. rewrite Hq.
  unfold mbind, result_bind, bind. rewrite loop_bindings_last.
  by destruct (last rows).
Qed.

Lemma insert_ordered_perm x l : insert_ordered x l ≡ₚ x :: l.
Proof.
  induction l as [|y l IH]; [reflexivity|]. cbn [insert_ordered].
  destruct (order_before x y); [reflexivity|].
  rewrite IH. apply Permutation_swap.
Qed.

Lemma order_by_perm l : order_by l ≡ₚ l.
Proof.
  induction l as [|x l IH]; [reflexivity|].
  unfold order_by in *. cbn [foldr]. rewrite insert_ordered_perm.
  by constructor.
Qed.

Lemma select_recent_stored db city_names n rows row :
  select_recent db city_names n = Return rows -> row ∈ rows ->
  row ∈ join_where db city_names.
Proof.
  unfold select_recent. destruct (n <? 0); [done|].
  intros [= <-] Hin. rewrite <- (order_by_perm (join_where db city_names)).
  by apply (subseteq_take (Z.to_nat n)).
Qed.

Lemma null_filler_zero x : is_zero x -> null_filler x = None.
Proof. by intros [e ->]. Qed.

(** C9, as amended.  Every reading surfaced by [get_recent_weather_data] is
    rebuilt from a stored row, and each of its members that passes through
    [null_filler] (the coordinates and the DECIMAL columns of the reading) is
    null when the stored value is zero; the integer columns are copied as
    they are, so a stored 0 stays 0. *)
Theorem zero_decimal_surfaces_as_null (connected : bool) (db : Database)
    (city_names : list string) (limit : Z)
    (items : list weather_item) (item : weather_item) :
  get_recent_weather_data connected db city_names limit = Return items ->
  item ∈ items ->
  exists row,
    row ∈ join_where db city_names
    /\ item = make_weather_item row
    /\ Forall (fun f => is_zero (stored f row) -> surfaced f item = None)
         decimal_fields
    /\ Forall (fun f => surfaced_int f item = stored_int f row) integer_fields.
Proof.
  intros Hget Hin. destruct connected; [|done].
  destruct (select_recent db city_names (limit * Z.of_nat (length city_names)))
    as [rows|e] eqn:Hq.
  - rewrite (get_recent_weather_data_rows _ _ _ _ Hq) in Hget.
    destruct (last rows) as [row|] eqn:Hl; [|done].
    injection Hget as <-. apply list_elem_of_singleton in Hin as ->.
    exists row. split; [|split; [done|split]].
    + eapply select_recent_stored; [exact Hq|].
      rewrite last_lookup in Hl. by eapply list_elem_of_lookup_2.
    + repeat (constructor; [cbn; apply null_filler_zero|]). constructor.
    + repeat (constructor; [reflexivity|]). constructor.
  - unfold get_recent_weather_data in Hget. by rewrite Hq in Hget.
Qed.

(** C10.  When the query of [get_recent_weather_data] returns no row, the
    function does not return an empty list: it reads [city_name], which the
    loop never bound, and raises. *)
Theorem no_rows_raises_unbound_local (db : Database)
    (city_names : list string) (limit : Z) :
  select_recent db city_names (limit * Z.of_nat (length city_names)) = Return [] ->
  get_recent_weather_data true db city_names limit = Raise UnboundLocalError
  /\ get_recent_weather_data true db city_names limit <> Return [].
Proof.
  intros Hq. rewrite (get_recent_weather_data_rows _ _ _ _ Hq). by split.
Qed.


Lemma get_recent_weather_data_never_empty connected db city_names limit :
  get_recent_weather_data connected db city_names limit <> Return [].
Proof.
  destruct connected; [|done].
  destruct (select_recent db city_names (limit * Z.of_nat (length city_names)))
    as [rows|e] eqn:Hq.
  - rewrite (get_recent_weather_data_rows _ _ _ _ Hq). by destruct (last rows).
  - unfold get_recent_weather_data. by rewrite Hq.
Qed.
(** C1 fails on the code.  After two readings were appended for London the
    function surfaces the older one, where the specification asks for the
    most recent; with readings stored for two cities it surfaces a single
    reading, where the specification asks for one per city. *)
Theorem two_readings_surface_the_older_one :
  summary (get_recent_weather_data true db_two_readings ["London"] 10)
    = Return [(Some "London", Some 1700000000, Some (float (DFin 1100 (-2))))]
  /\ summary (Spec.getRecentReadings true db_two_readings ["London"] 10)
    = Return [(Some "London", Some 1700000900, Some (float (DFin 1250 (-2))))]
  /\ summary (get_recent_weather_data true db_two_cities ["London"; "Paris"] 10)
    = Return [(Some "London", Some 1700000000, Some (float (DFin 1100 (-2))))]
  /\ summary (Spec.getRecentReadings true db_two_cities ["London"; "Paris"] 10)
    = Return [(Some "London", Some 1700000900, Some (float (DFin 1250 (-2))));
              (Some "Paris", Some 1700000500, Some (float (DFin 900 (-2))))].
Proof. vm_compute. repeat split. Qed.

(** C9 as stated fails: the reading surfaced for London has humidity 0 and
    [is_day] 0 in the store, and both are surfaced as 0, not as null. *)
Lemma zero_humidity_surfaces_as_zero :
  (fun w => (w_humidity (w_values w), w_is_day (w_values w))) <$> weather db_two_readings
    = [(Some 0, Some 0); (Some 0, Some 0)]
  /\ match get_recent_weather_data true db_two_readings ["London"] 10 with
     | Return [item] =>
         humidity (current item) = Some 0
         /\ is_day (current item) = Some 0
         /\ precip_mm (current item) = None
     | _ => False
     end.
Proof. vm_compute. repeat split. Qed.

Lemma zero_decimal_witness :
  match get_recent_weather_data true db_two_readings ["London"] 10 with
  | Return [item] =>
      exists row,
        row ∈ join_where db_two_readings ["London"]
        /\ item = make_weather_item row
        /\ Forall (fun f => is_zero (stored f row) -> surfaced f item = None)
             decimal_fields
        /\ Forall (fun f => surfaced_int f item = stored_int f row) integer_fields
  | _ => False
  end.
Proof.
  destruct (get_recent_weather_data true db_two_readings ["London"] 10)
    as [[|item [|item' items]]|e] eqn:E.
  - vm_compute in E. discriminate E.
  - apply (zero_decimal_surfaces_as_null true db_two_readings ["London"] 10
             [item] item E).
    apply list_elem_of_singleton. reflexivity.
  - vm_compute in E. discriminate E.
  - vm_compute in E. discriminate E.
Defined.

Lemma no_rows_witness :
  get_recent_weather_data true db_two_readings ["Paris"] 10 = Raise UnboundLocalError.
Proof.
  destruct (no_rows_raises_unbound_local db_two_readings ["Paris"] 10) as [H _].
  - vm_compute. reflexivity.
  - exact H.
Defined.

End Recent.

(** ** Location upsert *)

Ltac bind_inv H :=
  unfold mbind, result_bind, bind, mret, result_ret in H;
  repeat match type of H with
         | context [match ?x with Return _ => _ | Raise _ => _ end] =>
             let E := fresh "E" in destruct x eqn:E; [|discriminate H]
         end.

Section Upsert.

Import DatabaseManager Examples.

Lemma location_matches_identity n c r row :
  location_matches (Some n) (Some c) (Some r) row = true
  <-> identity row = (Some n, Some c, Some r).
Proof.
  unfold location_matches, identity, sql_eq_text.
  destruct (l_name (l_values row)) as [n'|], (l_country (l_values row)) as [c'|],
    (l_region (l_values row)) as [r'|]; cbn;
    rewrite ?andb_true_iff, ?String.eqb_eq; try (split; [intuition congruence | congruence]).
  split; [intros [[-> ->] ->]; done | intros [= -> -> ->]; done].
Qed.

Lemma find_map_preserved {A} (p : A -> bool) (g : A -> A) (l : list A) :
  (forall x, p (g x) = p x) -> List.find p (map g l) = g <$> List.find p l.
Proof.
  intros Hp. induction l as [|x l IH]; [done|]. cbn. rewrite Hp.
  by destruct (p x).
Qed.

Lemma filter_map_length {A} (P : A -> Prop) `{forall x, Decision (P x)}
    (g : A -> A) (l : list A) :
  (forall x, P (g x) <-> P x) ->
  length (filter P (map g l)) = length (filter P l).
Proof.
  intros HP. induction l as [|x l IH]; [done|]. cbn [map].
  rewrite !filter_cons. destruct (HP x) as [H1 H2].
  destruct (decide (P (g x))) as [Hg|Hg], (decide (P x)) as [Hx|Hx];
    cbn [length]; rewrite ?IH; tauto.
Qed.

Lemma find_none_filter {A} (p : A -> bool) (P : A -> Prop)
    `{forall x, Decision (P x)} (l : list A) :
  (forall x, p x = true <-> P x) ->
  List.find p l = None -> filter P l = [].
Proof.
  intros Hp. induction l as [|x l IH]; [done|]. cbn [List.find].
  destruct (p x) eqn:E; [done|]. intros Hf. rewrite filter_cons.
  destruct (decide (P x)) as [Hx|Hx]; [apply Hp in Hx; congruence | by apply IH].
Qed.

Lemma find_none_existsb {A} (p : A -> bool) (l : list A) :
  List.find p l = None -> existsb p l = false.
Proof.
  induction l as [|x l IH]; [done|]. cbn. destruct (p x); [done | exact IH].
Qed.

Lemma find_app_new {A} (p : A -> bool) (l : list A) (x : A) :
  List.find p l = None -> p x = true -> List.find p (l ++ [x]) = Some x.
Proof.
  induction l as [|y l IH]; cbn; [by intros _ ->|].
  destruct (p y); [done | exact IH].
Qed.

Lemma filter_at_most_one {A} (P : A -> Prop) `{forall x, Decision (P x)}
    (l : list A) :
  (forall i j x y, l !! i = Some x -> l !! j = Some y -> P x -> P y -> i = j) ->
  (length (filter P l) <= 1)%nat.
Proof.
  induction l as [|x l IH]; intros Hu; [cbn; lia|].
  rewrite filter_cons. destruct (decide (P x)) as [Hx|Hx].
  - assert (filter P l = []) as ->; [|cbn; lia].
    destruct (filter P l) as [|y l'] eqn:E; [done|exfalso].
    assert (Hy : y ∈ filter P l) by (rewrite E; left).
    apply list_elem_of_filter in Hy as [Py Hy].
    apply list_elem_of_lookup in Hy as [j Hj].
    by specialize (Hu 0%nat (S j) x y eq_refl Hj Hx Py).
  - apply IH. intros i j a b Hi Hj Pa Pb.
    by injection (Hu (S i) (S j) a b Hi Hj Pa Pb).
Qed.

Lemma find_some_filter {A} (p : A -> bool) (P : A -> Prop)
    `{forall x, Decision (P x)} (l : list A) x :
  (forall x, p x = true <-> P x) ->
  List.find p l = Some x -> (1 <= length (filter P l))%nat.
Proof.
  intros Hp Hf. apply find_some in Hf as [Hin Hx].
  apply list_elem_of_In in Hin.
  assert (Hm : x ∈ filter P l) by (apply list_elem_of_filter; split; [by apply Hp|done]).
  destruct (filter P l); [by apply elem_of_nil in Hm | cbn; lia].
Qed.

Lemma set_mutable_identity v now r : identity (set_mutable v now r) = identity r.
Proof. reflexivity. Qed.

Lemma update_location_rows db id v k :
  length (rows_with_identity (apply_update db id v) k)
  = length (rows_with_identity db k).
Proof.
  unfold rows_with_identity, apply_update. cbn [locations].
  apply filter_map_length. intros x. by destruct (l_id x =? id).
Qed.

Lemma select_after_update db id v n c r :
  select_location_id (apply_update db id v) n c r = select_location_id db n c r.
Proof.
  unfold select_location_id, apply_update. cbn [locations].
  rewrite find_map_preserved.
  - destruct (List.find _ (locations db)) as [row|]; [|done]. cbn.
    by destruct (l_id row =? id).
  - intros x. by destruct (l_id x =? id).
Qed.

(** The columns that the UPDATE sets are converted as the INSERT converts
    them. *)
Lemma location_columns_mutable v c :
  location_columns v = Return c ->
  mutable_columns v
  = Return {| l_name := l_name v; l_region := l_region v;
              l_country := l_country v;
              l_lat := l_lat c; l_lon := l_lon c; l_tz_id := l_tz_id c;
              l_localtime_epoch := l_localtime_epoch c;
              l_localtime_string := l_localtime_string c |}.
Proof.
  intros H. unfold location_columns in H. bind_inv H. injection H as <-.
  unfold mutable_columns, mbind, result_bind, bind, mret, result_ret.
  cbn [l_lat l_lon l_tz_id l_localtime_epoch l_localtime_string].
  by rewrite E2, E3, E4, E5, E6.
Qed.


Lemma location_values_identity c name country region location_data v :
  location_values c name country region location_data = Return v ->
  l_name v = name /\ l_country v = country /\ l_region v = region.
Proof.
  intros H. unfold location_values in H. bind_inv H. by injection H as <-.
Qed.

(** For an identity without nulls that the columns hold as it was
    submitted (no name of more than 255 characters), in a store whose
    sequence is not exhausted, two calls return the same id and leave
    exactly one row of that identity: the second call takes the update
    path. *)
Theorem insert_or_get_location_twice (db : Database) (d1 d2 : json)
    (n c r : string) (v1 v2 c1 c2 : LocationValues) :
  unique_constraint db ->
  identity_params (casts db) d1 = Return (Some n, Some c, Some r) ->
  identity_params (casts db) d2 = Return (Some n, Some c, Some r) ->
  location_values (casts db) (Some n) (Some c) (Some r) d1 = Return v1 ->
  location_values (casts db) (Some n) (Some c) (Some r) d2 = Return v2 ->
  location_columns v1 = Return c1 ->
  location_columns v2 = Return c2 ->
  (l_name c1, l_country c1, l_region c1) = (Some n, Some c, Some r) ->
  nextval_ok (locations_id_seq db) = true ->
  exists id db1 db2,
    insert_or_get_location true db d1 = (db1, Return id)
    /\ insert_or_get_location true db1 d2 = (db2, Return id)
    /\ length (rows_with_identity db2 (Some n, Some c, Some r)) = 1%nat.
Proof.
  intros Hu Hp1 Hp2 Hv1 Hv2 Hc1 Hc2 Hk Hseq. unfold insert_or_get_location.
  rewrite Hp1, Hv1.
  pose proof (location_columns_mutable _ _ Hc1) as Hm1.
  pose proof (location_columns_mutable _ _ Hc2) as Hm2.
  destruct (select_location_id db (Some n) (Some c) (Some r)) as [id|] eqn:Hsel.
  - unfold update_location at 1. rewrite Hm1.
    eexists id, _, _. split; [reflexivity|].
    cbn [casts apply_update]. rewrite Hp2, Hv2.
    rewrite select_after_update, Hsel.
    unfold update_location. rewrite Hm2. split; [reflexivity|].
    rewrite !update_location_rows. unfold rows_with_identity.
    unfold select_location_id in Hsel.
    destruct (List.find _ (locations db)) as [row|] eqn:Hf; [|done].
    apply Nat.le_antisymm.
    + apply filter_at_most_one. intros i j x y Hi Hj Hx Hy.
      apply (Hu i j x y Hi Hj). unfold unique_conflict.
      unfold identity in Hx. injection Hx as -> -> ->.
      by apply location_matches_identity.
    + eapply find_some_filter; [|exact Hf].
      intros x. apply location_matches_identity.
  - unfold select_location_id in Hsel.
    destruct (List.find _ (locations db)) as [row|] eqn:Hf; [done|].
    injection Hk as Hn1 Hn2 Hn3.
    unfold insert_location. rewrite Hc1, Hseq. unfold apply_insert_location.
    rewrite Hn1, Hn2.
    assert (Hex : existsb (unique_conflict c1) (locations db) = false).
    { apply find_none_existsb. unfold unique_conflict. by rewrite Hn1, Hn2, Hn3. }
    rewrite Hex.
    set (new := {| l_id := locations_id_seq db; l_values := c1;
                   l_created_at := current_timestamp db;
                   l_updated_at := current_timestamp db |}).
    eexists _, _, _. split; [reflexivity|].
    cbn [casts]. rewrite Hp2, Hv2.
    unfold select_location_id at 1. cbn [locations].
    rewrite (find_app_new _ _ new Hf);
      [|by (apply location_matches_identity; unfold identity; cbn; rewrite Hn1, Hn2, Hn3)].
    cbn [fmap option_fmap option_map l_id new].
    unfold update_location. rewrite Hm2. split; [reflexivity|].
    rewrite update_location_rows. unfold rows_with_identity. cbn [locations].
    rewrite filter_app.
    rewrite (find_none_filter _ (fun r0 => identity r0 = (Some n, Some c, Some r)) _
               (fun x => location_matches_identity n c r x) Hf).
    rewrite filter_cons, decide_True; [done|].
    unfold identity. cbn [l_values new]. by rewrite Hn1, Hn2, Hn3.
Qed.

Example london_upserted_twice :
  exists id db1 db2,
    insert_or_get_location true empty_database london = (db1, Return id)
    /\ insert_or_get_location true db1 london = (db2, Return id)
    /\ length (rows_with_identity db2
                 (Some "London", Some "United Kingdom",
                  Some "City of London, Greater London")) = 1%nat.
Proof.
  eapply (insert_or_get_location_twice empty_database london london).
  - intros i j ri rj Hi. destruct i; discriminate Hi.
  - reflexivity.
  - reflexivity.
  - vm_compute. reflexivity.
  - vm_compute. reflexivity.
  - vm_compute. reflexivity.
  - vm_compute. reflexivity.
  - reflexivity.
  - reflexivity.
Qed.

(** C4 fails on the code for an identity whose region is null: the lookup
    compares [region] with [=], which is never true of a null, so the
    second call inserts a second row and returns a new id. *)
Theorem null_region_is_inserted_twice :
  let first := insert_or_get_location true empty_database null_island in
  let second := insert_or_get_location true (fst first) null_island in
  snd first = Return 1
  /\ snd second = Return 2
  /\ length (rows_with_identity (fst second)
               (Some "Null Island", Some "Atlantic Ocean", None)) = 2%nat
  /\ l_id <$> locations (fst second) = [1; 2].
Proof. vm_compute. repeat split. Qed.

End Upsert.

(** ** Constraints of the store *)

Section StoreInvariant.

Import DatabaseManager.

Lemma sql_eq_text_sym a b : sql_eq_text a b = sql_eq_text b a.
Proof. destruct a, b; cbn; try done. apply String.eqb_sym. Qed.

Lemma unique_conflict_identity v r r' :
  identity r' = identity r -> unique_conflict v r' = unique_conflict v r.
Proof.
  unfold identity, unique_conflict, location_matches. by intros [= -> -> ->].
Qed.

Lemma unique_conflict_values r1 r1' r :
  identity r1' = identity r1 ->
  unique_conflict (l_values r1') r = unique_conflict (l_values r1) r.
Proof.
  unfold identity, unique_conflict, location_matches. by intros [= -> -> ->].
Qed.

Lemma unique_conflict_sym r1 r2 :
  unique_conflict (l_values r1) r2 = unique_conflict (l_values r2) r1.
Proof.
  unfold unique_conflict, location_matches.
  by rewrite (sql_eq_text_sym (l_name _)), (sql_eq_text_sym (l_country _)),
    (sql_eq_text_sym (l_region _)).
Qed.

Lemma references_location_ids db db' lid :
  l_id <$> locations db' = l_id <$> locations db ->
  references_location db' lid = references_location db lid.
Proof.
  intros Hids. unfold references_location. destruct lid as [id|]; [|done].
  assert (Hm : forall l, existsb (fun r : LocationRow => l_id r =? id) l
                         = existsb (fun k => k =? id) (l_id <$> l)).
  { induction l as [|x l IH]; [done|]. cbn. by rewrite IH. }
  by rewrite !Hm, Hids.
Qed.

Lemma references_location_elem db id :
  references_location db (Some id) = true <-> id ∈ (l_id <$> locations db).
Proof.
  unfold references_location. rewrite existsb_exists, list_elem_of_fmap.
  split.
  - intros (r & Hin & Heq). apply Z.eqb_eq in Heq. exists r.
    split; [done | by apply list_elem_of_In].
  - intros (r & -> & Hin). exists r. split; [by apply list_elem_of_In | apply Z.eqb_refl].
Qed.


Lemma touch_key id v now r : location_key (touch id v now r) = location_key r.
Proof. unfold touch. by destruct (l_id r =? id). Qed.

Lemma touch_id id v now r : l_id (touch id v now r) = l_id r.
Proof. unfold touch. by destruct (l_id r =? id). Qed.

Lemma touch_identity id v now r : identity (touch id v now r) = identity r.
Proof. unfold touch. by destruct (l_id r =? id). Qed.

Lemma update_location_locations db id v :
  locations (apply_update db id v)
  = touch id v (current_timestamp db) <$> locations db.
Proof. reflexivity. Qed.

Lemma update_location_ids db id v :
  l_id <$> locations (apply_update db id v) = l_id <$> locations db.
Proof.
  rewrite update_location_locations, <- list_fmap_compose.
  apply list_fmap_ext. intros i r _. apply touch_id.
Qed.

Lemma update_location_invariant db id v :
  store_invariant db -> store_invariant (apply_update db id v).
Proof.
  intros [Hu Hi Hs Hn Hwi Hws Hwn Hfk]. split.
  - intros i j ri rj. rewrite update_location_locations, !list_lookup_fmap.
    destruct (locations db !! i) as [ri0|] eqn:Ei; [|done].
    destruct (locations db !! j) as [rj0|] eqn:Ej; [|done].
    cbn. intros [= <-] [= <-] Hc. apply (Hu i j ri0 rj0 Ei Ej).
    rewrite (unique_conflict_values _ _ _ (touch_identity _ _ _ ri0)) in Hc.
    by rewrite (unique_conflict_identity _ _ _ (touch_identity _ _ _ rj0)) in Hc.
  - by rewrite update_location_ids.
  - rewrite update_location_locations, Forall_fmap.
    eapply Forall_impl; [exact Hs|]. intros r Hr. cbn. by rewrite touch_id.
  - rewrite update_location_locations, Forall_fmap.
    eapply Forall_impl; [exact Hn|]. intros r Hr. cbn.
    pose proof (touch_identity id v (current_timestamp db) r) as Ht.
    unfold identity in Ht. injection Ht as -> -> _. exact Hr.
  - exact Hwi.
  - exact Hws.
  - exact Hwn.
  - eapply Forall_impl; [exact Hfk|]. intros r Hr. cbn in *.
    by rewrite (references_location_ids db _ _ (update_location_ids db id v)).
Qed.

Lemma insert_location_cases db v :
  (exists e, apply_insert_location db v
             = ({| locations := locations db; weather := weather db;
                   locations_id_seq := locations_id_seq db + 1;
                   weather_id_seq := weather_id_seq db;
                   current_timestamp := current_timestamp db;
                   casts := casts db |}, Raise e)
             /\ (l_name v = None \/ l_country v = None
                 \/ existsb (unique_conflict v) (locations db) = true))
  \/ (apply_insert_location db v
      = ({| locations :=
              locations db ++
                [{| l_id := locations_id_seq db; l_values := v;
                    l_created_at := current_timestamp db;
                    l_updated_at := current_timestamp db |}];
            weather := weather db;
            locations_id_seq := locations_id_seq db + 1;
            weather_id_seq := weather_id_seq db;
            current_timestamp := current_timestamp db + 1;
            casts := casts db |},
         Return (locations_id_seq db))
      /\ is_Some (l_name v) /\ is_Some (l_country v)
      /\ existsb (unique_conflict v) (locations db) = false).
Proof.
  unfold apply_insert_location.
  destruct (l_name v) as [n|]; [|left; eexists; split; [done | by left]].
  destruct (l_country v) as [c|]; [|left; eexists; split; [done | by right; left]].
  destruct (existsb (unique_conflict v) (locations db)) eqn:E.
  - left. eexists. split; [done | by right; right].
  - right. split; [done|]. split; [by eexists|]. split; [by eexists | done].
Qed.

Lemma references_location_mono db db' lid :
  l_id <$> locations db ⊆ l_id <$> locations db' ->
  references_location db lid = true -> references_location db' lid = true.
Proof.
  intros Hsub. destruct lid as [id|]; [|done].
  rewrite !references_location_elem. apply Hsub.
Qed.

Lemma insert_location_invariant db v :
  store_invariant db -> store_invariant (fst (apply_insert_location db v)).
Proof.
  intros [Hu Hi Hs Hn Hwi Hws Hwn Hfk].
  destruct (insert_location_cases db v) as [(e & -> & _) | (-> & Hname & Hcountry & Hex)];
    cbn [fst].
  - split; cbn [locations weather locations_id_seq weather_id_seq]; try done.
    eapply Forall_impl; [exact Hs|]. cbn. intros; lia.
  - set (new := {| l_id := locations_id_seq db; l_values := v;
                   l_created_at := current_timestamp db;
                   l_updated_at := current_timestamp db |}).
    assert (Hnone : forall r, r ∈ locations db -> unique_conflict v r = false).
    { intros r Hr. destruct (unique_conflict v r) eqn:E; [|done].
      assert (existsb (unique_conflict v) (locations db) = true); [|congruence].
      apply existsb_exists. exists r. split; [by apply list_elem_of_In | done]. }
    split; cbn [locations weather locations_id_seq weather_id_seq].
    + intros i j ri rj Hi' Hj' Hc.
      apply lookup_app_Some in Hi' as [Hi'|[Hil Hi']];
        apply lookup_app_Some in Hj' as [Hj'|[Hjl Hj']].
      * by apply (Hu i j ri rj).
      * apply list_lookup_singleton_Some in Hj' as [_ <-].
        rewrite unique_conflict_sym in Hc. cbn [l_values new] in Hc.
        rewrite Hnone in Hc; [done|]. by eapply list_elem_of_lookup_2.
      * apply list_lookup_singleton_Some in Hi' as [_ <-]. cbn [l_values new] in Hc.
        rewrite Hnone in Hc; [done|]. by eapply list_elem_of_lookup_2.
      * apply list_lookup_singleton_Some in Hi' as [Hi0 _].
        apply list_lookup_singleton_Some in Hj' as [Hj0 _]. lia.
    + rewrite fmap_app. apply NoDup_app. split; [done|]. split; [|apply NoDup_singleton].
      intros id Hin. cbn. rewrite list_elem_of_singleton. intros ->.
      apply list_elem_of_fmap in Hin as (r & Heq & Hin).
      rewrite Forall_forall in Hs. specialize (Hs r Hin). cbn in Hs. lia.
    + apply Forall_app. split.
      * eapply Forall_impl; [exact Hs|]. cbn. intros; lia.
      * apply Forall_singleton. cbn. lia.
    + apply Forall_app. split; [done|]. by apply Forall_singleton.
    + done.
    + done.
    + done.
    + eapply Forall_impl; [exact Hfk|]. intros r. cbn beta.
      apply references_location_mono. cbn [locations]. rewrite fmap_app.
      intros x Hx. apply elem_of_app. by left.
Qed.

Lemma insert_weather_cases db v :
  (exists e, apply_insert_weather db v
             = ({| locations := locations db; weather := weather db;
                   locations_id_seq := locations_id_seq db;
                   weather_id_seq := weather_id_seq db + 1;
                   current_timestamp := current_timestamp db;
                   casts := casts db |}, Raise e)
             /\ (w_last_updated_epoch v = None \/ w_last_updated v = None
                 \/ references_location db (w_location_id v) = false))
  \/ (apply_insert_weather db v
      = ({| locations := locations db;
            weather :=
              weather db ++
                [{| w_id := weather_id_seq db; w_values := v;
                    w_created_at := current_timestamp db |}];
            locations_id_seq := locations_id_seq db;
            weather_id_seq := weather_id_seq db + 1;
            current_timestamp := current_timestamp db + 1;
            casts := casts db |},
         Return (weather_id_seq db))
      /\ is_Some (w_last_updated_epoch v) /\ is_Some (w_last_updated v)
      /\ references_location db (w_location_id v) = true).
Proof.
  unfold apply_insert_weather.
  destruct (w_last_updated_epoch v) as [n|]; [|left; eexists; split; [done | by left]].
  destruct (w_last_updated v) as [c|]; [|left; eexists; split; [done | by right; left]].
  destruct (references_location db (w_location_id v)) eqn:E.
  - right. split; [done|]. split; [by eexists|]. split; [by eexists | done].
  - left. eexists. split; [done | by right; right].
Qed.

Lemma insert_weather_invariant db v :
  store_invariant db -> store_invariant (fst (apply_insert_weather db v)).
Proof.
  intros [Hu Hi Hs Hn Hwi Hws Hwn Hfk].
  destruct (insert_weather_cases db v) as [(e & -> & _) | (-> & He & Hl & Hr)];
    cbn [fst].
  - split; cbn [locations weather locations_id_seq weather_id_seq]; try done.
    eapply Forall_impl; [exact Hws|]. cbn. intros; lia.
  - split; cbn [locations weather locations_id_seq weather_id_seq]; try done.
    + rewrite fmap_app. apply NoDup_app. split; [done|]. split; [|apply NoDup_singleton].
      intros id Hin. cbn. rewrite list_elem_of_singleton. intros ->.
      apply list_elem_of_fmap in Hin as (r & Heq & Hin).
      rewrite Forall_forall in Hws. specialize (Hws r Hin). cbn in Hws. lia.
    + apply Forall_app. split.
      * eapply Forall_impl; [exact Hws|]. cbn. intros; lia.
      * apply Forall_singleton. cbn. lia.
    + apply Forall_app. split; [done|]. by apply Forall_singleton.
    + apply Forall_app. split; [exact Hfk|]. by apply Forall_singleton.
Qed.

Lemma empty_database_invariant : store_invariant empty_database.
Proof.
  split; cbn; try constructor.
  intros i j ri rj Hi. destruct i; discriminate Hi.
Qed.

Lemma insert_or_get_location_cases connected db location_data :
  (exists e, insert_or_get_location connected db location_data = (db, Raise e))
  \/ (exists id v, insert_or_get_location connected db location_data
                   = (apply_update db id v, Return id))
  \/ (exists v, insert_or_get_location connected db location_data
                = apply_insert_location db v).
Proof.
  unfold insert_or_get_location. destruct connected; [|left; by eexists].
  destruct (identity_params (casts db) location_data) as [[[name country] region]|e];
    [|left; by eexists].
  destruct (select_location_id db name country region) as [existing|];
    destruct (location_values (casts db) name country region location_data) as [v|e];
    eauto.
  - unfold update_location. destruct (mutable_columns v) as [c|e]; eauto.
  - unfold insert_location. destruct (location_columns v) as [c|e]; eauto.
    destruct (nextval_ok (locations_id_seq db)); eauto.
Qed.

Lemma insert_weather_data_cases connected db location_id weather_data :
  (exists e, insert_weather_data connected db location_id weather_data = (db, Raise e))
  \/ (exists v, (exists p, weather_values (casts db) location_id weather_data = Return p
                           /\ weather_columns p = Return v
                           /\ jsonb_in (casts db) weather_data = true
                           /\ nextval_ok (weather_id_seq db) = true)
                /\ insert_weather_data connected db location_id weather_data
                   = apply_insert_weather db v).
Proof.
  unfold insert_weather_data. destruct connected; [|left; by eexists].
  destruct (weather_values (casts db) location_id weather_data) as [p|e] eqn:Hp;
    [|left; by eexists].
  unfold insert_weather. destruct (weather_columns p) as [v|e] eqn:Hv;
    [|left; by eexists].
  assert (Hraw : w_raw_data p = weather_data).
  { unfold weather_values in Hp. bind_inv Hp. by injection Hp as <-. }
  rewrite Hraw. destruct (jsonb_in (casts db) weather_data) eqn:Hj;
    [|left; by eexists].
  destruct (nextval_ok (weather_id_seq db)) eqn:Hs; [|left; by eexists].
  right. exists v. split; [by exists p | done].
Qed.

(** The persistence operations keep the constraints of the schema. *)
Lemma operations_keep_invariant (connected : bool) (db : Database)
    (location_data weather_data : json) (location_id : Z) :
  store_invariant db ->
  store_invariant (fst (insert_or_get_location connected db location_data))
  /\ store_invariant (fst (insert_weather_data connected db location_id weather_data)).
Proof.
  intros Hinv. split.
  - destruct (insert_or_get_location_cases connected db location_data)
      as [(e & ->) | [(id & v & ->) | (v & ->)]]; cbn [fst].
    + exact Hinv.
    + by apply update_location_invariant.
    + by apply insert_location_invariant.
  - destruct (insert_weather_data_cases connected db location_id weather_data)
      as [(e & ->) | (v & _ & ->)]; cbn [fst].
    + exact Hinv.
    + by apply insert_weather_invariant.
Qed.

(** X1.  The two persistence operations keep the constraints of the schema:
    from a store in which ids are unique and below their sequences,
    UNIQUE(name, country, region) holds, the NOT NULL columns are filled and
    every reading references a location, [insert_or_get_location] and
    [insert_weather_data] lead to such a store again, whether they return or
    raise. *)
Theorem persistence_keeps_invariant (connected : bool) (db : Database)
    (location_data weather_data : json) (location_id : Z) :
  store_invariant db ->
  store_invariant (fst (insert_or_get_location connected db location_data))
  /\ store_invariant (fst (insert_weather_data connected db location_id weather_data)).
Proof. exact (operations_keep_invariant connected db location_data weather_data location_id). Qed.

#[global] Instance append_only_refl : Reflexive append_only.
Proof. intros db. repeat split; (done || lia). Qed.

#[global] Instance append_only_trans : Transitive append_only.
Proof.
  intros a b c (H1 & H2 & H3 & H4) (K1 & K2 & K3 & K4).
  repeat split; [by etrans | by etrans | lia | lia].
Qed.

Lemma update_location_append_only db id v : append_only db (apply_update db id v).
Proof.
  repeat split; cbn [weather locations_id_seq weather_id_seq]; try (done || lia).
  rewrite update_location_locations, <- list_fmap_compose.
  erewrite list_fmap_ext; [done|]. intros i r _. cbn. symmetry. apply touch_key.
Qed.

Lemma insert_location_append_only db v : append_only db (fst (apply_insert_location db v)).
Proof.
  destruct (insert_location_cases db v) as [(e & -> & _) | (-> & _)]; cbn [fst];
    repeat split; cbn [locations weather locations_id_seq weather_id_seq];
    try (done || lia).
  rewrite fmap_app. by apply prefix_app_r.
Qed.

Lemma insert_weather_append_only db v : append_only db (fst (apply_insert_weather db v)).
Proof.
  destruct (insert_weather_cases db v) as [(e & -> & _) | (-> & _)]; cbn [fst];
    repeat split; cbn [locations weather locations_id_seq weather_id_seq];
    try (done || lia).
  by apply prefix_app_r.
Qed.

Lemma insert_or_get_location_append_only connected db location_data :
  append_only db (fst (insert_or_get_location connected db location_data)).
Proof.
  destruct (insert_or_get_location_cases connected db location_data)
    as [(e & ->) | [(id & v & ->) | (v & ->)]]; cbn [fst].
  - done.
  - apply update_location_append_only.
  - apply insert_location_append_only.
Qed.

Lemma insert_weather_data_append_only connected db location_id weather_data :
  append_only db (fst (insert_weather_data connected db location_id weather_data)).
Proof.
  destruct (insert_weather_data_cases connected db location_id weather_data)
    as [(e & ->) | (v & _ & ->)]; cbn [fst].
  - done.
  - apply insert_weather_append_only.
Qed.


(** X2.  A persistence operation that raises leaves both tables as they were:
    [get_connection] rolls the transaction back, so no half-written location
    or reading stays behind. *)
Theorem failed_operation_is_rolled_back (connected : bool) (db : Database)
    (location_data weather_data : json) (location_id : Z) (e : exn) :
  (snd (insert_or_get_location connected db location_data) = Raise e ->
   same_tables db (fst (insert_or_get_location connected db location_data)))
  /\ (snd (insert_weather_data connected db location_id weather_data) = Raise e ->
      same_tables db (fst (insert_weather_data connected db location_id weather_data))).
Proof.
  split.
  - destruct (insert_or_get_location_cases connected db location_data)
      as [(e' & ->) | [(id & v & ->) | (v & ->)]]; cbn [fst snd]; [done|done|].
    destruct (insert_location_cases db v) as [(e' & -> & _) | (-> & _)]; by cbn.
  - destruct (insert_weather_data_cases connected db location_id weather_data)
      as [(e' & ->) | (v & _ & ->)]; cbn [fst snd]; [done|].
    destruct (insert_weather_cases db v) as [(e' & -> & _) | (-> & _)]; by cbn.
Qed.

End StoreInvariant.


Section Pipeline.

Import DatabaseManager.

Lemma store_in_database_cases w env data :
  (fst (store_in_database w env data) = w
   /\ exists e, snd (store_in_database w env data) = Raise e)
  \/ (exists location_data,
        py_getitem data "location" = Return location_data
        /\ let first := insert_or_get_location (connect_location env) (db w) location_data in
           let w1 := with_store w (fst first) (CallInsertOrGetLocation location_data) in
           (fst (store_in_database w env data) = w1
            /\ exists e, snd first = Raise e
                         /\ snd (store_in_database w env data) = Raise e)
           \/ (exists location_id,
                 snd first = Return location_id
                 /\ let second := insert_weather_data (connect_weather env) (fst first)
                                    location_id data in
                    fst (store_in_database w env data)
                    = with_store w1 (fst second) (CallInsertWeatherData location_id data)
                    /\ snd (store_in_database w env data)
                       = (weather_id ← snd second; mret (location_id, weather_id)))).
Proof.
  unfold store_in_database.
  destruct (py_getitem data "location") as [location_data|e]; [|left; eauto].
  right. exists location_data. split; [done|]. cbn zeta.
  destruct (insert_or_get_location (connect_location env) (db w) location_data)
    as [db1 [location_id|e]]; cbn [fst snd].
  - right. exists location_id. split; [done|].
    destruct (insert_weather_data (connect_weather env) db1 location_id data)
      as [db2 [weather_id|e]]; cbn [fst snd]; by split.
  - left. eauto.
Qed.

Lemma store_in_database_db w env data :
  let w' := fst (store_in_database w env data) in
  (store_invariant (db w) -> store_invariant (db w'))
  /\ append_only (db w) (db w')
  /\ clock w' = clock w
  /\ last_request_time w' = last_request_time w
  /\ recent_requests w' = recent_requests w.
Proof.
  cbn zeta.
  destruct (store_in_database_cases w env data)
    as [[-> _] | (location_data & _ & [[-> _] | (location_id & _ & -> & _)])];
    cbn [db clock last_request_time recent_requests with_store].
  - split; [done|]. split; [reflexivity | done].
  - split; [|split; [|done]].
    + intros Hinv.
      by apply (operations_keep_invariant _ _ location_data JNull 0).
    + apply insert_or_get_location_append_only.
  - split; [|split; [|done]].
    + intros Hinv.
      apply (operations_keep_invariant _ _ JNull data location_id).
      by apply (operations_keep_invariant _ _ location_data JNull 0).
    + etrans; [apply insert_or_get_location_append_only|].
      apply insert_weather_data_append_only.
Qed.

Lemma get_weather_for_city_cases w env city :
  fst (get_weather_for_city w env city) = fst (rate_limited_request w env)
  \/ exists status_code data,
       http env = Response status_code (Return data)
       /\ raises_for_status status_code = false
       /\ invalid_structure data = Return false
       /\ fst (get_weather_for_city w env city)
          = fst (store_in_database (fst (rate_limited_request w env)) env data)
       /\ snd (get_weather_for_city w env city) = (city, Some data).
Proof.
  unfold get_weather_for_city.
  destruct (rate_limited_request_store w env) as (_ & _ & Hresp).
  destruct (rate_limited_request w env) as [w1 response]. cbn [fst snd] in *.
  subst response.
  destruct (http env) as [|msg|status_code [data|e]]; try by left.
  - destruct (raises_for_status status_code) eqn:Hs; [by left|].
    destruct (invalid_structure data) as [[|]|e] eqn:Hv; try by left.
    right. exists status_code, data.
    destruct (store_in_database w1 env data) as [w2 r]. by repeat split.
  - destruct (raises_for_status status_code); by left.
Qed.

Lemma get_weather_for_city_db w env city :
  let w' := fst (get_weather_for_city w env city) in
  (store_invariant (db w) -> store_invariant (db w'))
  /\ append_only (db w) (db w')
  /\ recent_requests w' = recent_requests w.
Proof.
  cbn zeta.
  destruct (rate_limited_request_store w env) as (Hdb & _ & _).
  assert (Hrr : recent_requests (fst (rate_limited_request w env)) = recent_requests w).
  { unfold rate_limited_request.
    by destruct (acquire (clock w) (last_request_time w) env). }
  destruct (get_weather_for_city_cases w env city)
    as [-> | (status_code & data & _ & _ & _ & -> & _)].
  - rewrite Hdb, Hrr. split; [done|]. split; [reflexivity | done].
  - destruct (store_in_database_db (fst (rate_limited_request w env)) env data)
      as (Hinv & Happ & _ & _ & Hr).
    rewrite Hdb in Hinv, Happ. rewrite Hr, Hrr. split; [done|]. by split.
Qed.

Lemma run_tasks_db env cities : forall w i,
  let w' := fst (run_tasks w env i cities) in
  (store_invariant (db w) -> store_invariant (db w'))
  /\ append_only (db w) (db w')
  /\ recent_requests w' = recent_requests w.
Proof.
  induction cities as [|city rest IH]; intros w i; cbn zeta.
  - cbn. split; [done|]. split; [reflexivity | done].
  - cbn [run_tasks].
    destruct (get_weather_for_city_db w (env i) city) as (Hinv & Happ & Hrr).
    destruct (get_weather_for_city w (env i) city) as [w1 r]. cbn [fst] in *.
    destruct (IH w1 (S i)) as (Hinv' & Happ' & Hrr').
    destruct (run_tasks w1 env (S i) rest) as [w2 futures]. cbn [fst] in *.
    split; [auto|]. split; [by etrans | congruence].
Qed.

Lemma process_weather_request_world w env uuid4 cities :
  let w1 := fst (run_tasks w env 0 cities) in
  let r := snd (process_weather_request w env uuid4 cities) in
  let w' := fst (process_weather_request w env uuid4 cities) in
  db w' = db w1
  /\ clock w' = clock w1
  /\ last_request_time w' = last_request_time w1
  /\ db_calls w' = db_calls w1
  /\ exists recorded,
       recent_requests w'
       = deque_append (recent_requests w)
           {| rr_request_id := uuid4; rr_cities := recorded;
              rr_timestamp := clock w1; rr_requested_at := clock w1 |}
       /\ length recorded = successful_count r.
Proof.
  cbn zeta. unfold process_weather_request.
  destruct (run_tasks_db env cities w 0) as (_ & _ & Hrr).
  destruct (run_tasks w env 0 cities) as [w1 futures]. cbn [fst snd] in *.
  repeat split. rewrite Hrr. eexists. split; [done|].
  cbn [successful_count].
  set (acc0 := {| results := []; errors := []; successful_cities := [] |}).
  assert (H : forall l acc, length (successful_cities acc) = length (results acc) ->
            length (successful_cities (fold_left collect l acc))
            = length (results (fold_left collect l acc))).
  { induction l as [|f l IH]; intros acc Hacc; [done|]. cbn [fold_left]. apply IH.
    destruct (collect_counts acc f) as (-> & _ & ->). lia. }
  by apply H.
Qed.

(** X9.  A batch keeps the constraints of the schema, whatever the provider
    and the store do during it. *)
Theorem batch_keeps_invariant (w : World) (env : nat -> TaskEnv) (uuid4 : string)
    (cities : list string) :
  store_invariant (db w) ->
  store_invariant (db (fst (process_weather_request w env uuid4 cities))).
Proof.
  intros Hinv.
  destruct (process_weather_request_world w env uuid4 cities) as (-> & _).
  by apply run_tasks_db.
Qed.

(** X10.  A batch only adds rows: no reading is removed or rewritten, and
    every location keeps its id, its identity and its creation time. *)
Theorem batch_is_append_only (w : World) (env : nat -> TaskEnv) (uuid4 : string)
    (cities : list string) :
  append_only (db w) (db (fst (process_weather_request w env uuid4 cities))).
Proof.
  destruct (process_weather_request_world w env uuid4 cities) as (-> & _).
  apply run_tasks_db.
Qed.

End Pipeline.

(** ** Upsert and lookup *)

Section UpsertLookup.

Import DatabaseManager.

Lemma column_null {A} (to_type : A -> result A) v v' :
  column to_type v = Return v' -> (v = None <-> v' = None).
Proof.
  destruct v as [x|]; cbn.
  - unfold mbind, result_bind, bind, mret, result_ret.
    destruct (to_type x); [|done]. by intros [= <-].
  - by intros [= <-].
Qed.

Lemma location_columns_null v c :
  location_columns v = Return c ->
  (l_name v = None <-> l_name c = None)
  /\ (l_country v = None <-> l_country c = None)
  /\ (l_region v = None <-> l_region c = None).
Proof.
  intros H. unfold location_columns in H. bind_inv H. injection H as <-.
  cbn [l_name l_country l_region].
  split; [by eapply column_null|]. split; by eapply column_null.
Qed.

Lemma select_location_id_found db name country region id :
  select_location_id db name country region = Some id ->
  exists n c r row,
    name = Some n /\ country = Some c /\ region = Some r
    /\ row ∈ locations db /\ l_id row = id
    /\ identity row = (Some n, Some c, Some r).
Proof.
  unfold select_location_id.
  destruct (List.find _ (locations db)) as [row|] eqn:Hf; [|done].
  intros [= <-]. apply find_some in Hf as [Hin Hm].
  apply list_elem_of_In in Hin.
  unfold location_matches, sql_eq_text in Hm.
  destruct name as [n|], country as [c|], region as [r|];
    try (by destruct (l_name (l_values row)), (l_country (l_values row)),
              (l_region (l_values row)); cbn in Hm;
              rewrite ?andb_false_r in Hm).
  exists n, c, r, row. repeat split; try done.
  by apply location_matches_identity.
Qed.

Lemma select_location_id_null db name country region :
  name = None \/ country = None \/ region = None ->
  select_location_id db name country region = None.
Proof.
  intros Hnull. destruct (select_location_id db name country region) as [id|] eqn:E;
    [|done].
  destruct (select_location_id_found _ _ _ _ _ E) as (n & c & r & _ & -> & -> & -> & _).
  by destruct Hnull as [|[|]].
Qed.

Lemma existsb_false_find {A} (p : A -> bool) (l : list A) :
  existsb p l = false -> List.find p l = None.
Proof.
  induction l as [|x l IH]; [done|]. cbn. destruct (p x); [done | exact IH].
Qed.

(** After a successful upsert the table holds a row with the returned id
    whose mutable columns are the submitted values as the column types
    store them.  The row carries the submitted identity when it was there
    before, and the submitted values converted to the column types when it
    is new; looking its identity up finds the id. *)
Lemma upsert_row (connected : bool) (db db' : Database)
    (location_data : json) (id : Z) (name country region : option string) :
  insert_or_get_location connected db location_data = (db', Return id) ->
  identity_params (casts db) location_data = Return (name, country, region) ->
  exists v c row,
    location_values (casts db) name country region location_data = Return v
    /\ mutable_columns v = Return c
    /\ row ∈ locations db' /\ l_id row = id
    /\ mutable_part (l_values row) = mutable_part c
    /\ (identity row = (name, country, region)
        \/ location_columns v = Return (l_values row))
    /\ (is_Some (l_region (l_values row)) ->
        select_location_id db' (l_name (l_values row)) (l_country (l_values row))
          (l_region (l_values row)) = Some id).
Proof.
  unfold insert_or_get_location. destruct connected; [|done].
  intros Hcall Hp. rewrite Hp in Hcall.
  destruct (location_values (casts db) name country region location_data)
    as [v|e] eqn:Hv; [|by destruct (select_location_id db name country region)].
  destruct (select_location_id db name country region) as [existing|] eqn:Hsel.
  - unfold update_location in Hcall.
    destruct (mutable_columns v) as [c|e] eqn:Hm; [|done].
    injection Hcall as <- <-.
    destruct (select_location_id_found _ _ _ _ _ Hsel)
      as (n & k & r & row & -> & -> & -> & Hin & Hid & Hident).
    exists v, c, (touch existing c (current_timestamp db) row).
    split; [done|]. split; [done|].
    split; [rewrite update_location_locations; by apply list_elem_of_fmap_2|].
    split; [by rewrite touch_id|].
    assert (Ht : touch existing c (current_timestamp db) row
                 = set_mutable c (current_timestamp db) row).
    { unfold touch. by rewrite Hid, Z.eqb_refl. }
    split; [by rewrite Ht|].
    split; [left; by rewrite touch_identity|].
    intros _. pose proof (touch_identity existing c (current_timestamp db) row) as Hti.
    rewrite Hident in Hti. unfold identity in Hti. injection Hti as -> -> ->.
    by rewrite select_after_update.
  - unfold insert_location in Hcall.
    destruct (location_columns v) as [c0|e] eqn:Hc0; [|done].
    destruct (nextval_ok (locations_id_seq db)); [|done].
    destruct (insert_location_cases db c0)
      as [(e & Hi & _) | (Hi & [n Hname] & [k Hcountry] & Hex)];
      rewrite Hi in Hcall; [done|].
    injection Hcall as <- <-.
    set (new := {| l_id := locations_id_seq db; l_values := c0;
                   l_created_at := current_timestamp db;
                   l_updated_at := current_timestamp db |}).
    eexists v, _, new. split; [done|].
    split; [exact (location_columns_mutable _ _ Hc0)|]. cbn [locations].
    split; [apply elem_of_app; right; by apply list_elem_of_singleton|].
    split; [done|]. split; [done|]. split; [by right|].
    cbn [l_values new]. intros [r Hr].
    unfold select_location_id. cbn [locations].
    assert (Hf : List.find (location_matches (l_name c0) (l_country c0) (l_region c0))
                   (locations db) = None)
      by exact (existsb_false_find _ _ Hex).
    rewrite (find_app_new _ _ new Hf); [done|].
    rewrite Hname, Hcountry, Hr. apply location_matches_identity.
    unfold identity. cbn [l_values new]. by rewrite Hname, Hcountry, Hr.
Qed.

(** X3.  After a successful upsert the table holds a row with the returned id
    whose mutable columns (lat, lon, tz_id, localtime_epoch,
    localtime_string) are the submitted values as the column types store
    them (rounded to the scale of a DECIMAL column).  The row carries the
    submitted identity when it was there before, and the submitted values
    converted to the column types when it is new; when its region is not
    null, looking its identity up again finds the returned id. *)
Theorem upsert_then_lookup (connected : bool) (db db' : Database)
    (location_data : json) (id : Z) (name country region : option string) :
  insert_or_get_location connected db location_data = (db', Return id) ->
  identity_params (casts db) location_data = Return (name, country, region) ->
  exists v c row,
    location_values (casts db) name country region location_data = Return v
    /\ mutable_columns v = Return c
    /\ row ∈ locations db' /\ l_id row = id
    /\ mutable_part (l_values row) = mutable_part c
    /\ (identity row = (name, country, region)
        \/ location_columns v = Return (l_values row))
    /\ (is_Some (l_region (l_values row)) ->
        select_location_id db' (l_name (l_values row)) (l_country (l_values row))
          (l_region (l_values row)) = Some id).
Proof. exact (upsert_row connected db db' location_data id name country region). Qed.

(** X4.  An upsert of a location without a name or without a country raises
    and leaves the tables as they were. *)
Theorem upsert_without_name_or_country (connected : bool) (db : Database)
    (location_data : json) (name country region : option string) :
  identity_params (casts db) location_data = Return (name, country, region) ->
  name = None \/ country = None ->
  (exists e, snd (insert_or_get_location connected db location_data) = Raise e)
  /\ same_tables db (fst (insert_or_get_location connected db location_data)).
Proof.
  intros Hp Hnull. unfold insert_or_get_location.
  destruct connected; [|split; [by eexists | done]].
  rewrite Hp, select_location_id_null by tauto.
  destruct (location_values (casts db) name country region location_data)
    as [v|e] eqn:Hv; [|split; [by eexists | done]].
  destruct (location_values_identity _ _ _ _ _ _ Hv) as (Hn & Hc & _).
  unfold insert_location.
  destruct (location_columns v) as [c|e] eqn:Hcol; [|split; [by eexists | done]].
  destruct (nextval_ok (locations_id_seq db)); [|split; [by eexists | done]].
  destruct (location_columns_null _ _ Hcol) as (Hname & Hcountry & _).
  destruct (insert_location_cases db c)
    as [(e & -> & _) | (_ & [n Hsn] & [k Hsc] & _)].
  - split; [by eexists | done].
  - rewrite Hn in Hname. rewrite Hc in Hcountry.
    destruct Hnull as [Hnull | Hnull].
    + apply Hname in Hnull. congruence.
    + apply Hcountry in Hnull. congruence.
Qed.

End UpsertLookup.

(** ** Append and fetch effects *)

Section Append.

Import DatabaseManager.

Lemma weather_values_fields c location_id weather_data v :
  weather_values c location_id weather_data = Return v ->
  w_location_id v = Some location_id
  /\ w_raw_data v = weather_data
  /\ exists current,
       py_get_dict weather_data "current" = Return current
       /\ get_integer c current "last_updated_epoch" = Return (w_last_updated_epoch v)
       /\ get_text c current "last_updated" = Return (w_last_updated v).
Proof.
  unfold weather_values.
  destruct (py_get_dict weather_data "current") as [current|e] eqn:Hc; [|done].
  unfold mbind at 1, result_bind at 1, bind at 1.
  destruct (py_get_dict current "condition") as [condition|e]; [|done].
  unfold mbind at 1, result_bind at 1, bind at 1.
  destruct (get_integer c current "last_updated_epoch") as [epoch|e] eqn:Hge; [|done].
  unfold mbind at 1, result_bind at 1, bind at 1.
  destruct (get_text c current "last_updated") as [last|e] eqn:Hgt; [|done].
  unfold mbind, result_bind, bind, mret, result_ret.
  repeat match goal with
         | |- context [match ?x with Return _ => _ | Raise _ => _ end] =>
             destruct x; [|done]
         end.
  intros [= <-]. cbn. split; [done|]. split; [done|]. by exists current.
Qed.

Lemma weather_columns_fields p v :
  weather_columns p = Return v ->
  column (to_integer 32) (w_location_id p) = Return (w_location_id v)
  /\ column (to_integer 64) (w_last_updated_epoch p) = Return (w_last_updated_epoch v)
  /\ column (to_varchar 50) (w_last_updated p) = Return (w_last_updated v)
  /\ w_raw_data v = w_raw_data p.
Proof.
  intros H. unfold weather_columns in H. bind_inv H. by injection H as <-.
Qed.

Lemma column_integer bits z o :
  column (to_integer bits) (Some z) = Return o -> o = Some z.
Proof.
  cbn. unfold to_integer, mbind, result_bind, bind, mret, result_ret.
  destruct (_ && _); [|done]. by intros [= <-].
Qed.

Lemma insert_or_get_location_stored_id connected db db' location_data id :
  insert_or_get_location connected db location_data = (db', Return id) ->
  id ∈ l_id <$> locations db'.
Proof.
  intros Hcall.
  destruct (identity_params (casts db) location_data)
    as [[[name country] region]|e] eqn:Hp.
  - destruct (upsert_row _ _ _ _ _ _ _ _ Hcall Hp)
      as (v & c & row & _ & _ & Hin & Hid & _).
    apply list_elem_of_fmap. by exists row.
  - unfold insert_or_get_location in Hcall. rewrite Hp in Hcall.
    by destruct connected.
Qed.

Lemma weather_columns_location_id p v location_id :
  w_location_id p = Some location_id ->
  weather_columns p = Return v ->
  w_location_id v = Some location_id.
Proof.
  intros Hl Hv. destruct (weather_columns_fields _ _ Hv) as (Hvl & _).
  rewrite Hl in Hvl. by apply column_integer in Hvl.
Qed.

(** A reading is stored only for a location of the table, and then as one
    new row that carries the returned id, the location id and the values of
    the payload as the column types store them; the rows that were there
    stay as they were. *)
Lemma append_row (connected : bool) (db db' : Database)
    (location_id weather_id : Z) (weather_data : json) :
  insert_weather_data connected db location_id weather_data = (db', Return weather_id) ->
  location_id ∈ l_id <$> locations db
  /\ locations db' = locations db
  /\ exists p row,
       weather_values (casts db) location_id weather_data = Return p
       /\ weather_columns p = Return (w_values row)
       /\ weather db' = weather db ++ [row]
       /\ w_id row = weather_id
       /\ weather_id = weather_id_seq db
       /\ w_location_id (w_values row) = Some location_id.
Proof.
  intros Hcall.
  destruct (insert_weather_data_cases connected db location_id weather_data)
    as [(e & He) | (v & (p & Hp & Hv & _ & _) & Hi)]; [congruence|].
  rewrite Hi in Hcall.
  destruct (insert_weather_cases db v) as [(e & He & _) | (He & _ & _ & Hfk)];
    rewrite He in Hcall; [done|].
  injection Hcall as <- <-. cbn [locations weather].
  destruct (weather_values_fields _ _ _ _ Hp) as (Hl & _).
  pose proof (weather_columns_location_id _ _ _ Hl Hv) as Hvl.
  rewrite Hvl in Hfk. apply references_location_elem in Hfk.
  split; [done|]. split; [done|].
  exists p, {| w_id := weather_id_seq db; w_values := v;
               w_created_at := current_timestamp db |}.
  by cbn.
Qed.

(** X5.  A reading is stored only for a location of the table, and then as
    one new row at the end of the table that carries the returned id (the
    next of the sequence), the location id and the values of the payload as
    the column types store them (rounded to the scale of a DECIMAL column);
    the locations and the readings that were there stay as they were. *)
Theorem append_stores_the_payload (connected : bool) (db db' : Database)
    (location_id weather_id : Z) (weather_data : json) :
  insert_weather_data connected db location_id weather_data = (db', Return weather_id) ->
  location_id ∈ l_id <$> locations db
  /\ locations db' = locations db
  /\ exists p row,
       weather_values (casts db) location_id weather_data = Return p
       /\ weather_columns p = Return (w_values row)
       /\ weather db' = weather db ++ [row]
       /\ w_id row = weather_id
       /\ weather_id = weather_id_seq db
       /\ w_location_id (w_values row) = Some location_id.
Proof. exact (append_row connected db db' location_id weather_id weather_data). Qed.

(** X6.  A payload without the observation epoch or without the observation
    time is refused, and so is a reading for a location id that is not in the
    table: the call raises and the tables stay as they were. *)
Theorem append_refused (connected : bool) (db : Database) (location_id : Z)
    (m current : gmap string json) :
  default (JObj ∅) (m !! "current") = JObj current ->
  is_null (current !! "last_updated_epoch")
  \/ is_null (current !! "last_updated")
  \/ location_id ∉ l_id <$> locations db ->
  (exists e, snd (insert_weather_data connected db location_id (JObj m)) = Raise e)
  /\ same_tables db (fst (insert_weather_data connected db location_id (JObj m))).
Proof.
  intros Hcur Hbad.
  destruct (insert_weather_data_cases connected db location_id (JObj m))
    as [(e & ->) | (v & (p & Hp & Hv & _ & _) & ->)]; [split; [by eexists | done]|].
  destruct (insert_weather_cases db v) as [(e & -> & _) | (_ & [ep Hep] & [lu Hlu] & Hfk)];
    [split; [by eexists | done]|].
  exfalso.
  destruct (weather_values_fields _ _ _ _ Hp) as (Hl & _ & cur & Hc & Hge & Hgt).
  destruct (weather_columns_fields _ _ Hv) as (Hvl & Hve & Hvt & _).
  unfold py_get_dict, py_get, bind in Hc. rewrite Hcur in Hc. injection Hc as <-.
  unfold get_integer, get_text, py_get, mbind, result_bind, bind in Hge, Hgt.
  assert (He0 : is_null (current !! "last_updated_epoch") -> False).
  { intros Hn. assert (Hnone : w_last_updated_epoch p = None).
    { destruct Hn as [Hn|Hn]; rewrite Hn in Hge; cbn in Hge; congruence. }
    apply (column_null _ _ _ Hve) in Hnone. congruence. }
  assert (Hl0 : is_null (current !! "last_updated") -> False).
  { intros Hn. assert (Hnone : w_last_updated p = None).
    { destruct Hn as [Hn|Hn]; rewrite Hn in Hgt; cbn in Hgt; congruence. }
    apply (column_null _ _ _ Hvt) in Hnone. congruence. }
  destruct Hbad as [Hn | [Hn | Hn]]; [tauto | tauto |].
  rewrite Hl in Hvl. apply column_integer in Hvl. rewrite Hvl in Hfk.
  by apply references_location_elem in Hfk.
Qed.

(** The id returned by an upsert is accepted by the append that follows
    it. *)
Lemma append_accepts_upserted_id (connected : bool) (db db1 : Database)
    (location_data weather_data : json) (location_id : Z) (p v : WeatherValues) :
  insert_or_get_location connected db location_data = (db1, Return location_id) ->
  weather_values (casts db1) location_id weather_data = Return p ->
  weather_columns p = Return v ->
  jsonb_in (casts db1) weather_data = true ->
  nextval_ok (weather_id_seq db1) = true ->
  is_Some (w_last_updated_epoch v) -> is_Some (w_last_updated v) ->
  exists db2,
    insert_weather_data true db1 location_id weather_data
    = (db2, Return (weather_id_seq db1))
    /\ weather db2
       = weather db1 ++ [{| w_id := weather_id_seq db1; w_values := v;
                            w_created_at := current_timestamp db1 |}].
Proof.
  intros Hup Hp Hv Hj Hs [ep Hep] [lu Hlu].
  pose proof (insert_or_get_location_stored_id _ _ _ _ _ Hup) as Hid.
  destruct (weather_values_fields _ _ _ _ Hp) as (Hl & Hraw & _).
  pose proof (weather_columns_location_id _ _ _ Hl Hv) as Hvl.
  unfold insert_weather_data. rewrite Hp. unfold insert_weather.
  rewrite Hv, Hraw, Hj, Hs. unfold apply_insert_weather. rewrite Hep, Hlu, Hvl.
  apply references_location_elem in Hid. rewrite Hid.
  eexists. split; reflexivity.
Qed.

(** X7.  The id returned by an upsert is accepted by the append that follows
    it: with the connection open and the sequence of reading ids not
    exhausted, a payload whose values the column types accept (in range, of
    the column's type or cast to it by the server, the document accepted as
    JSONB) and whose observation epoch and time are present is stored as the
    next row, with the values as the column types store them. *)
Theorem append_after_upsert (connected : bool) (db db1 : Database)
    (location_data weather_data : json) (location_id : Z) (p v : WeatherValues) :
  insert_or_get_location connected db location_data = (db1, Return location_id) ->
  weather_values (casts db1) location_id weather_data = Return p ->
  weather_columns p = Return v ->
  jsonb_in (casts db1) weather_data = true ->
  nextval_ok (weather_id_seq db1) = true ->
  is_Some (w_last_updated_epoch v) -> is_Some (w_last_updated v) ->
  exists db2,
    insert_weather_data true db1 location_id weather_data
    = (db2, Return (weather_id_seq db1))
    /\ weather db2
       = weather db1 ++ [{| w_id := weather_id_seq db1; w_values := v;
                            w_created_at := current_timestamp db1 |}].
Proof.
  exact (append_accepts_upserted_id connected db db1 location_data weather_data
           location_id p v).
Qed.

End Append.

Section FetchEffects.

(** X8.  A fetch that does not hand back the body of the provider's response
    leaves the store alone: nothing is written and no persistence operation is
    called. *)
Theorem failing_fetch_stores_nothing (w : World) (env : TaskEnv) (city : string) :
  snd (snd (get_weather_for_city w env city)) <> response_body (http env) ->
  db (fst (get_weather_for_city w env city)) = db w
  /\ db_calls (fst (get_weather_for_city w env city)) = db_calls w.
Proof.
  intros Hne.
  destruct (get_weather_for_city_cases w env city)
    as [-> | (status_code & data & Hh & _ & _ & _ & Hr)].
  - destruct (rate_limited_request_store w env) as (-> & -> & _). done.
  - rewrite Hr, Hh in Hne. done.
Qed.

End FetchEffects.

(** ** Request log and timing *)

Section RingBuffer.

Lemma deque_append_length q r :
  length (deque_append q r) = (S (length q) `min` 100)%nat.
Proof. unfold deque_append. rewrite length_drop, length_app. cbn. lia. Qed.

Lemma deque_append_last q r : last (deque_append q r) = Some r.
Proof.
  unfold deque_append.
  replace (drop (length (q ++ [r]) - 100) (q ++ [r]))
    with (drop (length (q ++ [r]) - 100) q ++ [r]).
  - apply last_snoc.
  - rewrite drop_app_le; [done|]. rewrite length_app. cbn. lia.
Qed.

Lemma deque_append_suffix q r : deque_append q r `suffix_of` q ++ [r].
Proof. unfold deque_append. apply suffix_drop. Qed.

Lemma fold_collect_cities futures : forall acc c,
  c ∈ successful_cities (fold_left collect futures acc) ->
  c ∈ successful_cities acc
  \/ exists f, f ∈ futures /\ fst (future_result f) = c /\ future_ok f = true.
Proof.
  induction futures as [|f l IH]; intros acc c; cbn [fold_left]; [by left|].
  intros Hc. apply IH in Hc as [Hc | (g & Hg & Hr)].
  - revert Hc. unfold collect, future_ok, is_successful.
    destruct (future_result f) as [city_name [d|]] eqn:E; cbn [snd fst].
    + destruct (py_in "error" d) as [[|]|e] eqn:Hp.
      * destruct (py_getitem d "message"); intros Hc; by left.
      * cbn [successful_cities]. intros Hc.
        apply elem_of_app in Hc as [Hc|Hc]; [by left|].
        apply list_elem_of_singleton in Hc as ->. right. exists f.
        rewrite E. cbn [fst snd]. rewrite Hp. split; [apply elem_of_cons; by left | done].
      * intros Hc. by left.
    + intros Hc. by left.
  - right. exists g. split; [apply elem_of_cons; by right | done].
Qed.

(** Every batch is recorded: the reply of GET /recent-requests after a batch
    ends with the record of that batch (its id, and as many cities as
    succeeded, all of them requested cities), lists the earlier records in
    their order with only the oldest ones dropped, and never has more than
    100 entries. *)
Lemma process_weather_request_recorded (w : World) (env : nat -> TaskEnv) (uuid4 : string)
    (cities : list string) :
  let done := process_weather_request w env uuid4 cities in
  exists requests record,
    get_recent_requests (fst done) = RecentRequests 200 requests (length requests)
    /\ last requests = Some record
    /\ rr_request_id record = uuid4
    /\ length (rr_cities record) = successful_count (snd done)
    /\ rr_cities record ⊆ cities
    /\ requests `suffix_of` recent_requests w ++ [record]
    /\ length requests = (S (length (recent_requests w)) `min` 100)%nat.
Proof.
  cbn zeta. unfold get_recent_requests, process_weather_request.
  pose proof (run_tasks_futures env cities w 0) as Hf.
  destruct (run_tasks_db env cities w 0) as (_ & _ & Hrr).
  destruct (run_tasks w env 0 cities) as [w1 futures]. cbn [fst snd] in *.
  rewrite Hrr. eexists _, _. split; [reflexivity|].
  split; [apply deque_append_last|]. split; [done|].
  cbn [rr_cities successful_count].
  set (acc0 := {| results := []; errors := []; successful_cities := [] |}).
  split; [|split; [|split; [apply deque_append_suffix | apply deque_append_length]]].
  - assert (H : forall l acc, length (successful_cities acc) = length (results acc) ->
              length (successful_cities (fold_left collect l acc))
              = length (results (fold_left collect l acc))).
    { induction l as [|f l IH]; intros acc Hacc; [done|]. cbn [fold_left]. apply IH.
      destruct (collect_counts acc f) as (-> & _ & ->). lia. }
    by apply H.
  - intros c Hc. apply fold_collect_cities in Hc as [Hc | (f & Hin & Hr & _)].
    + by apply elem_of_nil in Hc.
    + rewrite (as_completed_perm futures) in Hin. subst futures.
      apply list_elem_of_lookup in Hin as [k Hk].
      rewrite list_lookup_imap in Hk.
      destruct (cities !! k) as [city|] eqn:Hck; [|done].
      cbn in Hk. injection Hk as <-. cbn in Hr. subst c.
      by eapply list_elem_of_lookup_2.
Qed.

(** X11.  Every batch is recorded, also one without a successful city: after
    it GET /recent-requests lists it last, with the id of the batch and as
    many cities as the batch counted successful, all of them submitted ones;
    the log keeps the 100 latest batches. *)
Theorem batch_is_recorded (w : World) (env : nat -> TaskEnv) (uuid4 : string)
    (cities : list string) :
  let done := process_weather_request w env uuid4 cities in
  exists requests record,
    get_recent_requests (fst done) = RecentRequests 200 requests (length requests)
    /\ last requests = Some record
    /\ rr_request_id record = uuid4
    /\ length (rr_cities record) = successful_count (snd done)
    /\ rr_cities record ⊆ cities
    /\ requests `suffix_of` recent_requests w ++ [record]
    /\ length requests = (S (length (recent_requests w)) `min` 100)%nat.
Proof. apply process_weather_request_recorded. Qed.

End RingBuffer.

Section Timing.

Lemma sequential_requests_elapsed envs w :
  (Z.of_nat (length envs) - 1) * MIN_REQUEST_INTERVAL
  <= clock (fst (sequential_requests w envs)) - clock w.
Proof.
  destruct (sequential_requests_bounds envs w) as [Hc Hall].
  pose proof (sequential_requests_length envs w) as Hlen.
  destruct (snd (sequential_requests w envs)) as [|t0 ts] eqn:E.
  - cbn [length] in Hlen. rewrite <- Hlen. unfold MIN_REQUEST_INTERVAL. lia.
  - destruct (last (t0 :: ts)) as [tl|] eqn:El; [|by apply last_None in El].
    rewrite last_lookup in El. cbn [length Nat.pred] in El.
    rewrite Forall_lookup in Hall.
    pose proof (Hall _ _ El) as (_ & _ & Hup).
    pose proof (Hall 0%nat t0 eq_refl) as (_ & Hlo & _).
    destruct ts as [|t1 ts'].
    + cbn [length] in Hlen. rewrite <- Hlen. unfold MIN_REQUEST_INTERVAL. lia.
    + pose proof (sequential_requests_spaced envs w 0%nat (length (t1 :: ts')) t0 tl) as Hs.
      rewrite E in Hs. specialize (Hs eq_refl El ltac:(cbn [length]; lia)).
      rewrite <- Hlen. cbn [length] in *. unfold MIN_REQUEST_INTERVAL in *. lia.
Qed.

Lemma sequential_requests_times envs : forall w w0,
  clock w = clock w0 -> last_request_time w = last_request_time w0 ->
  clock (fst (sequential_requests w envs)) = clock (fst (sequential_requests w0 envs))
  /\ snd (sequential_requests w envs) = snd (sequential_requests w0 envs).
Proof.
  induction envs as [|env rest IH]; intros w w0 Hc Hl; [done|].
  rewrite !sequential_requests_cons. cbn [fst snd].
  assert (Hk : clock (fst (rate_limited_request w env))
               = clock (fst (rate_limited_request w0 env))
               /\ last_request_time (fst (rate_limited_request w env))
                  = last_request_time (fst (rate_limited_request w0 env))).
  { rewrite !rate_limited_request_clock, !rate_limited_request_last, Hc, Hl. done. }
  destruct Hk as [Hk1 Hk2]. destruct (IH _ _ Hk1 Hk2) as [-> ->]. by rewrite Hk2.
Qed.

Lemma get_weather_for_city_times w env city :
  clock (fst (get_weather_for_city w env city))
    = clock (fst (rate_limited_request w env))
  /\ last_request_time (fst (get_weather_for_city w env city))
    = last_request_time (fst (rate_limited_request w env)).
Proof.
  destruct (get_weather_for_city_cases w env city)
    as [-> | (status_code & data & _ & _ & _ & -> & _)]; [done|].
  destruct (store_in_database_db (fst (rate_limited_request w env)) env data)
    as (_ & _ & -> & -> & _). done.
Qed.

Lemma run_tasks_times env cities : forall w i,
  clock (fst (run_tasks w env i cities))
    = clock (fst (sequential_requests w (env <$> seq i (length cities))))
  /\ (fun f => fst (future_result f)) <$> snd (run_tasks w env i cities) = cities.
Proof.
  induction cities as [|city rest IH]; intros w i; [done|].
  cbn [run_tasks length seq fmap list_fmap]. rewrite sequential_requests_cons. cbn [fst].
  pose proof (get_weather_for_city_times w (env i) city) as [Hc Hl].
  pose proof (get_weather_for_city_outcome w (env i) city) as Ho.
  destruct (get_weather_for_city w (env i) city) as [w1 r]. cbn [fst snd] in *.
  destruct (IH w1 (S i)) as [IH1 IH2].
  destruct (run_tasks w1 env (S i) rest) as [w2 futures]. cbn [fst snd] in *.
  rewrite IH1. split.
  - by apply sequential_requests_times.
  - cbn. rewrite IH2, Ho. done.
Qed.

(** X12.  The rate limiter delays a call by no more than the interval: when
    the recorded time of the previous call is not in the future, the time a
    call adds to the delays of its environment is at most
    [MIN_REQUEST_INTERVAL], and it is nothing when the interval has already
    passed. *)
Theorem acquire_delay_bounds (clock last : Z) (env : TaskEnv) :
  let current_time := clock + Z.of_N (wait_for_lock env) in
  let granted := snd (acquire clock last env) in
  (last <= current_time ->
   granted <= current_time + MIN_REQUEST_INTERVAL
              + Z.of_N (oversleep env) + Z.of_N (before_record env))
  /\ (MIN_REQUEST_INTERVAL <= current_time - last ->
      granted = current_time + Z.of_N (before_record env)).
Proof.
  cbn zeta. unfold acquire. cbn [snd]. unfold MIN_REQUEST_INTERVAL.
  destruct (Z.ltb_spec (clock + Z.of_N (wait_for_lock env) - last) 100000000); lia.
Qed.

(** X13.  Every fetch of a batch passes through the rate limiter, whatever its
    outcome: a batch of [n] cities takes at least [n - 1] times the minimum
    interval. *)
Theorem batch_takes_time (w : World) (env : nat -> TaskEnv) (uuid4 : string)
    (cities : list string) :
  let done := process_weather_request w env uuid4 cities in
  (Z.of_nat (length cities) - 1) * MIN_REQUEST_INTERVAL
    <= clock (fst done) - clock w
  /\ (Z.of_nat (length cities) - 1) * MIN_REQUEST_INTERVAL
    <= timestamp (snd done) - clock w.
Proof.
  cbn zeta.
  destruct (process_weather_request_world w env uuid4 cities) as (_ & -> & _).
  assert (Ht : timestamp (snd (process_weather_request w env uuid4 cities))
               = clock (fst (run_tasks w env 0 cities))).
  { unfold process_weather_request. by destruct (run_tasks w env 0 cities). }
  rewrite Ht. destruct (run_tasks_times env cities w 0) as [-> _].
  pose proof (sequential_requests_elapsed (env <$> seq 0 (length cities)) w) as H.
  rewrite length_fmap, length_seq in H. done.
Qed.

End Timing.

(** ** Request handlers *)

Section Handlers.

Ltac other_reply :=
  let H := fresh in intros H; cbn [snd] in H; discriminate H.

Lemma omap_cons {A B} (f : A -> option B) (x : A) (l : list A) :
  omap f (x :: l)
  = match f x with Some y => y :: omap f l | None => omap f l end.
Proof. reflexivity. Qed.

Lemma clean_omap cities : clean cities = omap clean_city cities.
Proof.
  unfold clean.
  assert (H : forall l acc,
            fold_left
              (fun clean_cities city =>
                 match city with
                 | JStr s =>
                     if negb (String.eqb (Str.strip s) "")
                     then clean_cities ++ [Str.strip s]
                     else clean_cities
                 | _ => clean_cities
                 end) l acc
            = acc ++ omap clean_city l).
  { induction l as [|city l IH]; intros acc; cbn [fold_left].
    - by rewrite app_nil_r.
    - rewrite IH, omap_cons. destruct city as [| | | |s| |]; try done.
      cbn [clean_city]. destruct (String.eqb (Str.strip s) ""); cbn [negb]; [done|].
      by rewrite <- app_assoc. }
  apply H.
Qed.

Lemma clean_entries cities c :
  c ∈ clean cities <-> exists s, JStr s ∈ cities /\ c = Str.strip s /\ c <> "".
Proof.
  rewrite clean_omap, list_elem_of_omap. split.
  - intros (city & Hin & Hc). unfold clean_city in Hc.
    destruct city as [| | | |s| |]; try done.
    destruct (String.eqb_spec (Str.strip s) ""); [done|].
    injection Hc as <-. by exists s.
  - intros (s & Hin & -> & Hne). exists (JStr s). split; [done|]. cbn.
    by destruct (String.eqb_spec (Str.strip s) "").
Qed.

Lemma process_weather_request_requested w env uuid4 cities :
  requested_cities (snd (process_weather_request w env uuid4 cities)) = cities.
Proof. unfold process_weather_request. by destruct (run_tasks w env 0 cities). Qed.

(** X14.  A request that POST /process-weather answers with an error message
    has no effect: no city is fetched, nothing is stored and no batch is
    recorded; the status is 400 or 500. *)
Theorem rejected_request_has_no_effect (w : World) (env : nat -> TaskEnv)
    (uuid4 : string) (request : Request) (status : Z) (error : string) :
  snd (process_weather w env uuid4 request) = Failed status error ->
  fst (process_weather w env uuid4 request) = w
  /\ (status = 400 \/ status = 500).
Proof.
  unfold process_weather. destruct (is_json request); cbn [negb];
    [|intros [= <- _]; by split; [|left]].
  destruct (data ← get_json request; py_get data "cities") as [found|e];
    [|intros [= <- _]; by split; [|right]].
  cbn zeta. destruct (py_truthy (default (JArr []) found)); cbn [negb];
    [|intros [= <- _]; by split; [|left]].
  destruct (default (JArr []) found) as [| | | | |l|]; try (intros [= <- _]; by split; [|left]).
  destruct (length (clean l) =? 0)%nat; [intros [= <- _]; by split; [|left]|].
  destruct (20 <? length (clean l))%nat; [intros [= <- _]; by split; [|left]|].
  by destruct (process_weather_request w env uuid4 (clean l)).
Qed.

(** X15.  What POST /process-weather hands to the orchestrator: the strings of
    the submitted array, stripped, without the blank ones, in their order;
    between 1 and 20 of them.  The answer is 200 when a city succeeded and 500
    otherwise. *)
Theorem accepted_request_is_cleaned (w : World) (env : nat -> TaskEnv)
    (uuid4 : string) (request : Request) (status : Z) (response : BatchResponse) :
  snd (process_weather w env uuid4 request) = Processed status response ->
  exists data cities,
    get_json request = Return data
    /\ py_get data "cities" = Return (Some (JArr cities))
    /\ process_weather_request w env uuid4 (omap clean_city cities)
       = (fst (process_weather w env uuid4 request), response)
    /\ requested_cities response = omap clean_city cities
    /\ (1 <= length (requested_cities response) <= 20)%nat
    /\ (forall c, c ∈ requested_cities response <->
                  exists s, JStr s ∈ cities /\ c = Str.strip s /\ c <> "")
    /\ (status = 200 <-> (0 < successful_count response)%nat)
    /\ (status = 500 <-> successful_count response = 0%nat).
Proof.
  unfold process_weather. destruct (is_json request); cbn [negb]; [|other_reply].
  destruct (get_json request) as [data|e]; [|other_reply].
  unfold mbind, result_bind, bind.
  destruct (py_get data "cities") as [found|e] eqn:Hget; [|other_reply].
  cbn zeta. destruct (py_truthy (default (JArr []) found)) eqn:Ht; cbn [negb]; [|other_reply].
  destruct found as [cities|]; [|other_reply]. cbn [default from_option id] in *.
  destruct cities as [| | | | |l|]; try (other_reply).
  destruct (Nat.eqb_spec (length (clean l)) 0); [other_reply|].
  destruct (Nat.ltb_spec 20 (length (clean l))); [other_reply|].
  pose proof (process_weather_request_requested w env uuid4 (clean l)) as Hreq.
  destruct (process_weather_request_counts w env uuid4 (clean l)) as (_ & _ & _ & Hs).
  destruct (process_weather_request w env uuid4 (clean l)) as [w' r] eqn:Hrun.
  cbn [fst snd] in *. intros [= <- <-].
  exists data, l. rewrite <- clean_omap.
  split; [done|]. split; [done|]. split; [done|]. split; [done|].
  rewrite Hreq. split; [lia|]. split; [apply clean_entries|].
  rewrite Hs. destruct (Nat.ltb_spec 0 (successful_count r)); split; split; (done || lia).
Qed.

End Handlers.

(** ** Recent data *)

Section RecentData.

Import DatabaseManager.

Lemma get_recent_weather_data_one connected db city_names limit items :
  get_recent_weather_data connected db city_names limit = Return items ->
  exists row, row ∈ join_where db city_names /\ items = [make_weather_item row].
Proof.
  destruct connected; [|done]. intros Hget.
  destruct (select_recent db city_names (limit * Z.of_nat (length city_names)))
    as [rows|e] eqn:Hq.
  - rewrite (get_recent_weather_data_rows _ _ _ _ Hq) in Hget.
    destruct (last rows) as [row|] eqn:Hl; [|done].
    injection Hget as <-. exists row. split; [|done].
    eapply select_recent_stored; [exact Hq|].
    rewrite last_lookup in Hl. by eapply list_elem_of_lookup_2.
  - unfold get_recent_weather_data in Hget. by rewrite Hq in Hget.
Qed.

(** X16.  GET /get-recent-data never answers that no weather data was found,
    and a 200 answer carries exactly one reading, rebuilt from a stored row of
    one of the cities of the latest batch, however many cities that batch
    recorded. *)
Theorem recent_data_has_one_reading (connected : bool) (w : World) :
  get_recent_data connected w <> Failed 404 "No weather data found for recent cities"
  /\ (forall status id data n requested_at,
        get_recent_data connected w = RecentData status id data n requested_at ->
        status = 200 /\ n = 1%nat
        /\ exists latest row,
             last (recent_requests w) = Some latest
             /\ id = rr_request_id latest
             /\ row ∈ join_where (db w) (rr_cities latest)
             /\ data = [make_weather_item row]).
Proof.
  unfold get_recent_data.
  destruct (last (recent_requests w)) as [latest|]; [|by split].
  destruct (length (rr_cities latest) =? 0)%nat; [by split|].
  destruct (get_recent_weather_data connected (db w) (rr_cities latest) 10)
    as [items|e] eqn:Hget; [|by split].
  destruct (get_recent_weather_data_one _ _ _ _ _ Hget) as (row & Hin & ->).
  cbn [length Nat.eqb]. split; [done|].
  intros status id data n requested_at [= <- <- <- <- <-].
  split; [done|]. split; [done|]. by exists latest, row.
Qed.


End RecentData.

Section FromKeys.

Lemma dict_fromkeys_fold (keys : list string) : forall d : list string,
  NoDup d ->
  let d' := fold_left (fun d k => if bool_decide (k ∈ d) then d else d ++ [k]) keys d in
  NoDup d'
  /\ (forall k, k ∈ d' <-> k ∈ d \/ k ∈ keys)
  /\ d `prefix_of` d'
  /\ (NoDup (d ++ keys) -> d' = d ++ keys).
Proof.
  induction keys as [|k keys IH]; intros d Hd; cbn zeta; cbn [fold_left].
  - split; [done|]. split; [|split; [done | by rewrite app_nil_r]].
    intros k. rewrite elem_of_nil. tauto.
  - case_bool_decide as Hk.
    + destruct (IH d Hd) as (H1 & H2 & H3 & H4). cbn zeta in *.
      split; [done|]. split; [|split; [done|]].
      * intros x. rewrite H2, elem_of_cons. split; [tauto|].
        intros [?|[->|?]]; tauto.
      * intros Hnd. apply NoDup_app in Hnd as (_ & Hnd & _).
        exfalso. apply (Hnd k Hk). by left.
    + assert (Hd' : NoDup (d ++ [k])).
      { apply NoDup_app. split; [done|]. split; [|apply NoDup_singleton].
        intros x Hx. rewrite list_elem_of_singleton. by intros ->. }
      destruct (IH (d ++ [k]) Hd') as (H1 & H2 & H3 & H4). cbn zeta in *.
      split; [done|]. split; [|split].
      * intros x. rewrite H2, elem_of_app, list_elem_of_singleton, elem_of_cons. tauto.
      * etrans; [|exact H3]. by apply prefix_app_r.
      * rewrite <- app_assoc in H4. cbn in H4. exact H4.
Qed.

(** X19.  The city list the home page submits has no repetition and holds
    exactly the cities that were entered; a list without repetition is
    submitted as it is. *)
Theorem dict_fromkeys_unique (keys : list string) :
  NoDup (dict_fromkeys keys)
  /\ (forall k, k ∈ dict_fromkeys keys <-> k ∈ keys)
  /\ (length (dict_fromkeys keys) <= length keys)%nat
  /\ (NoDup keys -> dict_fromkeys keys = keys).
Proof.
  destruct (dict_fromkeys_fold keys [] (NoDup_nil_2)) as (H1 & H2 & _ & H4).
  cbn zeta in *. fold (dict_fromkeys keys) in *.
  split; [done|]. split; [|split; [|done]].
  - intros k. rewrite H2, elem_of_nil. tauto.
  - apply submseteq_length. apply NoDup_submseteq; [done|].
    intros k Hk. apply H2 in Hk as [Hk|Hk]; [by apply elem_of_nil in Hk | done].
Qed.

End FromKeys.

(** ** Round trip *)

Section RoundTrip.

Import DatabaseManager.
























End RoundTrip.

(** ** Composition *)

Section Composition.

Import Examples Scenarios.

(** X18.  After a batch in which no city succeeded, GET /get-recent-data
    answers 404: the batch is the latest one and it recorded no city. *)
Theorem recent_data_after_failed_batch (connected : bool) (w : World)
    (env : nat -> TaskEnv) (uuid4 : string) (cities : list string) :
  successful_count (snd (process_weather_request w env uuid4 cities)) = 0%nat ->
  get_recent_data connected (fst (process_weather_request w env uuid4 cities))
  = Failed 404 "No successful cities in recent request".
Proof.
  intros Hzero.
  destruct (process_weather_request_recorded w env uuid4 cities)
    as (requests & record & Hreq & Hlast & _ & Hlen & _).
  injection Hreq as <-. unfold get_recent_data. rewrite Hlast.
  rewrite Hzero in Hlen. by rewrite Hlen.
Qed.

Lemma recent_data_after_failed_batch_witness :
  get_recent_data true
    (fst (process_weather_request initial_world times_out "b1" ["London"; "Paris"]))
  = Failed 404 "No successful cities in recent request".
Proof.
  apply recent_data_after_failed_batch. vm_compute. reflexivity.
Defined.

End Composition.

(** ** Instances of the statements *)

Section Witnesses.

Import DatabaseManager Examples Scenarios.

Lemma persistence_keeps_invariant_witness :
  store_invariant db_london /\ store_invariant db_one_reading.
Proof.
  split.
  - apply (persistence_keeps_invariant true empty_database london older 1).
    apply empty_database_invariant.
  - apply (persistence_keeps_invariant true db_london london older 1).
    apply (persistence_keeps_invariant true empty_database london older 1).
    apply empty_database_invariant.
Defined.

Lemma failed_operation_witness :
  same_tables db_london (fst (insert_or_get_location false db_london paris))
  /\ same_tables db_london (fst (insert_weather_data true db_london 7 older)).
Proof.
  split.
  - apply (failed_operation_is_rolled_back false db_london paris older 7
             OperationalError).
    reflexivity.
  - apply (failed_operation_is_rolled_back true db_london paris older 7
             (IntegrityError "violates foreign key constraint")).
    vm_compute. reflexivity.
Defined.

Lemma upsert_without_name_witness :
  (exists e, snd (insert_or_get_location true db_london (dict [("region", JStr "Kent")]))
             = Raise e)
  /\ same_tables db_london
       (fst (insert_or_get_location true db_london (dict [("region", JStr "Kent")]))).
Proof.
  apply (upsert_without_name_or_country true db_london
           (dict [("region", JStr "Kent")]) None None (Some "Kent")).
  - vm_compute. reflexivity.
  - left. reflexivity.
Defined.

Lemma append_refused_witness :
  (exists e, snd (insert_weather_data true db_london 1 no_current) = Raise e)
  /\ same_tables db_london (fst (insert_weather_data true db_london 1 no_current)).
Proof.
  apply (append_refused true db_london 1 (list_to_map [("location", london)]) ∅).
  - vm_compute. reflexivity.
  - left. left. reflexivity.
Defined.

Lemma failing_fetch_witness :
  db (fst (get_weather_for_city initial_world (times_out 0%nat) "London"))
    = empty_database
  /\ db_calls (fst (get_weather_for_city initial_world (times_out 0%nat) "London")) = [].
Proof.
  apply (failing_fetch_stores_nothing initial_world (times_out 0%nat) "London").
  vm_compute. discriminate.
Defined.

Lemma batch_keeps_invariant_witness :
  store_invariant
    (db (fst (process_weather_request initial_world answers_older "b1"
                ["London"; "London"]))).
Proof.
  apply batch_keeps_invariant. apply empty_database_invariant.
Defined.

Lemma acquire_delay_witness :
  snd (acquire 1000000050 1000000000 (quiet RequestTimeout true))
    <= 1000000050 + MIN_REQUEST_INTERVAL
  /\ snd (acquire 2000000000 1000000000 (quiet RequestTimeout true)) = 2000000000.
Proof.
  destruct (acquire_delay_bounds 1000000050 1000000000 (quiet RequestTimeout true))
    as [H1 _].
  destruct (acquire_delay_bounds 2000000000 1000000000 (quiet RequestTimeout true))
    as [_ H2].
  split.
  - apply H1. vm_compute. discriminate.
  - apply H2. vm_compute. discriminate.
Defined.

Lemma rejected_request_witness :
  fst (process_weather initial_world answers_older "b1" (post (JStr "London")))
  = initial_world.
Proof.
  destruct (rejected_request_has_no_effect initial_world answers_older "b1"
              (post (JStr "London")) 400 "Cities must be provided as an array")
    as [H _].
  - vm_compute. reflexivity.
  - exact H.
Defined.

Lemma accepted_request_witness :
  exists status response,
    snd (process_weather initial_world answers_older "b1"
           (post (JArr [JStr " London "; JInt 7; JStr "  "])))
    = Processed status response
    /\ requested_cities response = ["London"]
    /\ (1 <= length (requested_cities response) <= 20)%nat.
Proof.
  destruct (process_weather initial_world answers_older "b1"
              (post (JArr [JStr " London "; JInt 7; JStr "  "])))
    as [w' [status error|status response|? ? ? ? ?|? ? ?]] eqn:E;
    try (vm_compute in E; discriminate E).
  destruct (accepted_request_is_cleaned initial_world answers_older "b1"
              (post (JArr [JStr " London "; JInt 7; JStr "  "])) status response)
    as (data & cities & Hd & Hc & _ & Hr & Hn & _).
  - by rewrite E.
  - exists status, response. split; [reflexivity|]. split; [|exact Hn].
    rewrite Hr. vm_compute in Hd. injection Hd as <-.
    vm_compute in Hc. injection Hc as <-. vm_compute. reflexivity.
Defined.

Lemma recent_data_has_one_reading_witness :
  exists id data requested_at,
    get_recent_data true
      (fst (process_weather_request initial_world answers_older "b1" ["London"]))
    = RecentData 200 id data 1 requested_at.
Proof.
  destruct (get_recent_data true
              (fst (process_weather_request initial_world answers_older "b1" ["London"])))
    as [status error|status response|status id data n requested_at|? ? ?] eqn:E;
    try (vm_compute in E; discriminate E).
  destruct (recent_data_has_one_reading true
              (fst (process_weather_request initial_world answers_older "b1" ["London"])))
    as [_ H].
  destruct (H status id data n requested_at E) as (-> & -> & _).
  by exists id, data, requested_at.
Defined.


Lemma dict_fromkeys_witness :
  dict_fromkeys ["London"; "Paris"] = ["London"; "Paris"]
  /\ NoDup (dict_fromkeys ["London"; "Paris"; "London"]).
Proof.
  split.
  - apply (dict_fromkeys_unique ["London"; "Paris"]).
    apply NoDup_cons. split; [|apply NoDup_singleton].
    rewrite list_elem_of_singleton. discriminate.
  - apply (dict_fromkeys_unique ["London"; "Paris"; "London"]).
Defined.

Lemma upsert_then_lookup_witness :
  exists v c row,
    location_values strict_casts (Some "London") (Some "United Kingdom")
      (Some "City of London, Greater London") london = Return v
    /\ mutable_columns v = Return c
    /\ row ∈ locations db_london /\ l_id row = 1
    /\ mutable_part (l_values row) = mutable_part c
    /\ (identity row = (Some "London", Some "United Kingdom",
                        Some "City of London, Greater London")
        \/ location_columns v = Return (l_values row))
    /\ (is_Some (l_region (l_values row)) ->
        select_location_id db_london (l_name (l_values row)) (l_country (l_values row))
          (l_region (l_values row)) = Some 1).
Proof.
  apply (upsert_then_lookup true empty_database db_london london 1).
  - vm_compute. reflexivity.
  - vm_compute. reflexivity.
Defined.

Lemma append_stores_the_payload_witness :
  exists p row,
    weather_values strict_casts 1 chilly = Return p
    /\ weather_columns p = Return (w_values row)
    /\ weather (fst (insert_weather_data true db_london 1 chilly))
       = weather db_london ++ [row]
    /\ w_id row = 1.
Proof.
  destruct (append_stores_the_payload true db_london
              (fst (insert_weather_data true db_london 1 chilly)) 1 1 chilly)
    as (_ & _ & p & row & H1 & H2 & H3 & H4 & _).
  - vm_compute. reflexivity.
  - exists p, row. split; [exact H1|]. split; [exact H2|]. split; [exact H3 | exact H4].
Defined.

(** The reading of 12.345 degrees is stored as 12.35, and the one of 1234.5
    degrees is refused by DECIMAL(5, 2). *)
Example stored_rounded :
  (fun w => w_temp_c (w_values w))
    <$> weather (fst (insert_weather_data true db_london 1 chilly))
  = [Some (DFin 1235 (-2))]
  /\ insert_weather_data true db_london 1 scorching
     = (db_london, Raise NumericValueOutOfRange).
Proof. vm_compute. split; reflexivity. Qed.

Lemma append_after_upsert_witness :
  exists db2,
    insert_weather_data true db_london 1 older = (db2, Return 1)
    /\ length (weather db2) = 1%nat.
Proof.
  edestruct (append_after_upsert true empty_database db_london london older 1)
    as (db2 & H1 & H2).
  - vm_compute. reflexivity.
  - vm_compute. reflexivity.
  - vm_compute. reflexivity.
  - reflexivity.
  - reflexivity.
  - eexists. reflexivity.
  - eexists. reflexivity.
  - exists db2. split; [exact H1|]. rewrite H2. reflexivity.
Defined.




End Witnesses.
